(** * Jamf: BSON-aware validators on top of Zod

    A shallow embedding of [JamfType.ts] (the parse context, [handleResult],
    [safeParse], [safeParseAsync]) and of [JamfUtilities.ts]
    ([getUnkownType], [handleNestedParsing], [JamfObjectId], [JamfDBRef]),
    followed by the properties the specification states about them.

    JavaScript effects are written in state-passing style: a computation is
    a function from the [world] (issue arrays, allocated [ZodError] objects,
    the log of [bson] constructor calls, Zod's global error map) to an
    [outcome] and a new world.  A promise is a pending computation that
    [await] runs. *)

From Stdlib Require Import ZArith NArith Ascii Strings.Byte Bool Lia.
From stdpp Require Import base option list strings gmap.

Set Warnings "-register-all".

Open Scope string_scope.
Open Scope list_scope.

(* ================================================================== *)
(** * JavaScript values *)
(* ================================================================== *)

(** A native identifier ([bson.ObjectId]) owns a buffer of twelve bytes. *)
Record ObjectId := MkObjectId {
  oid0 : byte; oid1 : byte; oid2 : byte; oid3 : byte;
  oid4 : byte; oid5 : byte; oid6 : byte; oid7 : byte;
  oid8 : byte; oid9 : byte; oid10 : byte; oid11 : byte
}.

Definition oid_buffer (i : ObjectId) : list byte :=
  [oid0 i; oid1 i; oid2 i; oid3 i; oid4 i; oid5 i;
   oid6 i; oid7 i; oid8 i; oid9 i; oid10 i; oid11 i].

(** The values a validator can be handed ([data: unknown]).  Numbers are
    the integer-valued ones.  [VObjectId] and [VDBRef] are instances of
    the two [bson] classes; [VObject cname props] is any other object,
    given by the name of the class it was made by and its own properties
    in insertion order (["Object"] for an object literal or parsed JSON).
    Properties hold data, and reading one has no effect; an object made
    without a prototype ([Object.create(null)]) is not among these
    values. *)
Inductive value : Type :=
  | VUndefined
  | VNull
  | VBool (b : bool)
  | VNumber (n : Z)
  | VString (s : string)
  | VObjectId (id : ObjectId)
  | VDBRef (collection : string) (oid : value) (db : value)
  | VObject (cname : string) (props : list (string * value)).

(** [typeof data] *)
Definition typeof (data : value) : string :=
  match data with
  | VUndefined => "undefined"
  | VNull => "object"
  | VBool _ => "boolean"
  | VNumber _ => "number"
  | VString _ => "string"
  | VObjectId _ | VDBRef _ _ _ | VObject _ _ => "object"
  end.

(** Truthiness, as used by [&&], [?:] and [if]. *)
Definition truthy (data : value) : bool :=
  match data with
  | VUndefined | VNull => false
  | VBool b => b
  | VNumber n => negb (n =? 0)%Z
  | VString s => negb (String.eqb s "")
  | VObjectId _ | VDBRef _ _ _ | VObject _ _ => true
  end.

Definition instanceof_ObjectId (data : value) : bool :=
  match data with VObjectId _ => true | _ => false end.

Definition instanceof_DBRef (data : value) : bool :=
  match data with VDBRef _ _ _ => true | _ => false end.

(** [data instanceof Object]: every object, never a primitive or [null]. *)
Definition instanceof_Object (data : value) : bool :=
  match data with
  | VObjectId _ | VDBRef _ _ _ | VObject _ _ => true
  | _ => false
  end.

Fixpoint lookup_prop (key : string) (props : list (string * value)) : value :=
  match props with
  | [] => VUndefined
  | (k, v) :: rest => if String.eqb k key then v else lookup_prop key rest
  end.

(** The own property of that name, when there is one (its value may be
    [undefined]). *)
Fixpoint own_prop (key : string) (props : list (string * value)) : option value :=
  match props with
  | [] => None
  | (k, v) :: rest => if String.eqb k key then Some v else own_prop key rest
  end.

(** What JavaScript raises. *)
Inductive exn : Type :=
  | TypeError (message : string)
  | Error (message : string)
  | BSONError (message : string)
  | Thrown (message : option string).

(** [(e as Error).message] *)
Definition exn_message (e : exn) : option string :=
  match e with
  | TypeError m | Error m | BSONError m => Some m
  | Thrown m => m
  end.

Inductive outcome (A : Type) : Type :=
  | Ret (a : A)
  | Throw (e : exn).
Arguments Ret {A} a.
Arguments Throw {A} e.

(** Property reads [data.key], for the keys read here ([$oid], [$ref],
    [$id], [$db], and [name] below): reading from [null] or [undefined]
    raises, the primitives and the [bson] instances carry none of these
    keys, other objects answer from their own properties. *)
Definition get_prop (data : value) (key : string) : outcome value :=
  match data with
  | VUndefined =>
      Throw (TypeError ("Cannot read properties of undefined (reading '" +:+ key +:+ "')"))
  | VNull =>
      Throw (TypeError ("Cannot read properties of null (reading '" +:+ key +:+ "')"))
  | VObject _ props => Ret (lookup_prop key props)
  | _ => Ret VUndefined
  end.

(** What [data.constructor] reads: the class the value was made by (the
    wrapper class of a primitive), inherited through the prototype, unless
    the object has an own property of that name, which then is what is
    read. *)
Inductive Constructor : Type :=
  | Class (name : string)
  | Shadowed (v : value).

(** [data.constructor]; [undefined] and [null] have no properties to read. *)
Definition get_constructor (data : value) : outcome Constructor :=
  match data with
  | VUndefined =>
      Throw (TypeError "Cannot read properties of undefined (reading 'constructor')")
  | VNull =>
      Throw (TypeError "Cannot read properties of null (reading 'constructor')")
  | VBool _ => Ret (Class "Boolean")
  | VNumber _ => Ret (Class "Number")
  | VString _ => Ret (Class "String")
  | VObjectId _ => Ret (Class "ObjectId")
  | VDBRef _ _ _ => Ret (Class "DBRef")
  | VObject cname props =>
      Ret (match own_prop "constructor" props with
           | Some v => Shadowed v
           | None => Class cname
           end)
  end.

(** [c.name]: the name of a class; of any other value its [name]
    property, which raises on [null] and [undefined]. *)
Definition get_name (c : Constructor) : outcome value :=
  match c with
  | Class name => Ret (VString name)
  | Shadowed v => get_prop v "name"
  end.

(** [data.constructor.name] *)
Definition constructor_name (data : value) : outcome value :=
  match get_constructor data with
  | Ret c => get_name c
  | Throw e => Throw e
  end.

(** [getUnkownType] of JamfUtilities.ts.  The declared result is a
    string; what comes back is whatever [data.constructor.name] holds. *)
Definition getUnkownType (data : value) : outcome value :=
  if String.eqb (typeof data) "object" then
    if truthy data then constructor_name data else Ret (VString "null")
  else Ret (VString (typeof data)).

(* ================================================================== *)
(** * The bson library, at its boundary *)
(* ================================================================== *)

(** [bson] is imported, not part of the repository.  The validators use
    three things of it: the constructor of identifiers, which takes a
    string of 24 hex digits of either case (and refuses any other string),
    [toHexString], which writes the twelve bytes as lower-case digits, and
    the constructor of references. *)

(** Hex digits.  [hex_value] reads a digit of either case (the library
    tests [/^[0-9a-fA-F]{24}$/]); [hex_digit] writes the lower-case one. *)
Definition hex_value (c : ascii) : option N :=
  let n := N_of_ascii c in
  if (48 <=? n)%N && (n <=? 57)%N then Some (n - 48)%N
  else if (97 <=? n)%N && (n <=? 102)%N then Some (n - 87)%N
  else if (65 <=? n)%N && (n <=? 70)%N then Some (n - 55)%N
  else None.

Definition hex_digit (n : N) : ascii :=
  if (n <? 10)%N then ascii_of_N (48 + n) else ascii_of_N (87 + n).

Definition is_hex (c : ascii) : bool :=
  match hex_value c with Some _ => true | None => false end.

Definition lower_ascii (c : ascii) : ascii :=
  let n := N_of_ascii c in
  if (65 <=? n)%N && (n <=? 90)%N then ascii_of_N (n + 32) else c.

Fixpoint toLowerCase (s : string) : string :=
  match s with
  | EmptyString => EmptyString
  | String c rest => String (lower_ascii c) (toLowerCase rest)
  end.

Fixpoint all_hex (s : string) : bool :=
  match s with
  | EmptyString => true
  | String c rest => is_hex c && all_hex rest
  end.

(** The strings the identifier constructor accepts: 24 hex digits. *)
Definition is_hex24 (s : string) : bool :=
  (String.length s =? 24)%nat && all_hex s.

Definition decode_byte (c1 c2 : ascii) : option byte :=
  match hex_value c1, hex_value c2 with
  | Some h, Some l => Byte.of_N (16 * h + l)
  | _, _ => None
  end.

Definition encode_byte (b : byte) : string :=
  let n := Byte.to_N b in
  String (hex_digit (n / 16)) (String (hex_digit (n mod 16)) EmptyString).

Fixpoint fromHex (s : string) : option (list byte) :=
  match s with
  | EmptyString => Some []
  | String c1 (String c2 rest) =>
      match decode_byte c1 c2, fromHex rest with
      | Some b, Some bs => Some (b :: bs)
      | _, _ => None
      end
  | String _ EmptyString => None
  end.

Fixpoint toHex (bs : list byte) : string :=
  match bs with
  | [] => EmptyString
  | b :: rest => encode_byte b +:+ toHex rest
  end.

Definition ObjectId_of_buffer (bs : list byte) : option ObjectId :=
  match bs with
  | [b0; b1; b2; b3; b4; b5; b6; b7; b8; b9; b10; b11] =>
      Some (MkObjectId b0 b1 b2 b3 b4 b5 b6 b7 b8 b9 b10 b11)
  | _ => None
  end.

(** [id.toHexString()]: the canonical, lower-case hex form. *)
Definition toHexString (i : ObjectId) : string := toHex (oid_buffer i).

(** [new bson.ObjectId(s)] for a string [s]: the identifier, or the
    library's complaint. *)
Definition ObjectId_of_string (s : string) : exn + ObjectId :=
  match (if is_hex24 s then fromHex s else None) ≫= ObjectId_of_buffer with
  | Some i => inr i
  | None =>
      inl (BSONError
             "input must be a 24 character hex string, 12 byte Uint8Array, or an integer")
  end.

(** Splitting a collection name at its dots, for [new bson.DBRef]. *)
Fixpoint split_dot (s : string) : list string :=
  match s with
  | EmptyString => [EmptyString]
  | String c rest =>
      if Ascii.eqb c "."%char then EmptyString :: split_dot rest
      else match split_dot rest with
           | part :: parts => String c part :: parts
           | [] => [String c EmptyString]
           end
  end.

(** [new bson.DBRef(collection, oid, db)]: a namespace ["db.coll"] is
    split into its two parts; the constructor calls [collection.split], so
    anything but a string raises. *)
Definition DBRef_new (collection oid db : value) : exn + value :=
  match collection with
  | VString c =>
      match split_dot c with
      | [d; c'] => inr (VDBRef c' oid (VString d))
      | _ => inr (VDBRef c oid db)
      end
  | _ => inl (TypeError "collection.split is not a function")
  end.

(* ================================================================== *)
(** * Zod: issues and error maps *)
(* ================================================================== *)

Inductive PathSeg : Type :=
  | Key (s : string)
  | Index (n : Z).

Definition Path := list PathSeg.

Inductive ZodIssueCode : Type := invalid_type | custom.

(** [IssueData]: what a validator hands to [addIssueToContext].  The
    validators write [received] through [as any]: it holds what
    [getUnkownType] returned. *)
Record IssueData := {
  code : ZodIssueCode;
  expected : option string;
  received : option value;
  message : option string
}.

Record ZodIssue := {
  issue_code : ZodIssueCode;
  issue_expected : option string;
  issue_received : option value;
  issue_path : Path;
  issue_message : string
}.

(** An error map sees the issue, its full path, the data of the context
    and the message chosen so far ([defaultError]).  Error maps are taken
    to return a message. *)
Definition ZodErrorMap := IssueData -> Path -> value -> string -> string.

(** [makeIssue]: a message given by the validator wins; otherwise the
    error maps run from the last to the first, each seeing the message of
    the one before. *)
Definition makeIssue (d : value) (p : Path) (errorMaps : list ZodErrorMap)
    (issueData : IssueData) : ZodIssue :=
  let fullPath := p ++ [] (* issueData.path || [] *) in
  let with_message m :=
    {| issue_code := code issueData;
       issue_expected := expected issueData;
       issue_received := received issueData;
       issue_path := fullPath;
       issue_message := m |} in
  match message issueData with
  | Some m => with_message m
  | None =>
      with_message
        (fold_left (fun errorMessage map => map issueData fullPath d errorMessage)
           (rev errorMaps) "")
  end.

(* ================================================================== *)
(** * The world and its computations *)
(* ================================================================== *)

Inductive bson_call : Type :=
  | NewObjectId (arg : value)
  | NewDBRef (collection oid db : value).

(** The mutable part of a run: the issue arrays by address, the
    [ZodError] objects allocated so far (each holds the address of the
    array it was built from; its index is its identity), the [bson]
    constructors called, oldest first, and Zod's global error map: what
    [getErrorMap()] gives, the default map unless [setErrorMap] installed
    another on top of it. *)
Record world := World {
  arrays : gmap nat (list ZodIssue);
  next_array : nat;
  zod_errors : list nat;
  calls : list bson_call;
  global_errorMap : ZodErrorMap
}.

Definition M (A : Type) : Type := world -> outcome A * world.

Definition ret {A} (a : A) : M A := fun w => (Ret a, w).

Definition throw {A} (e : exn) : M A := fun w => (Throw e, w).

Definition lift {A} (o : outcome A) : M A := fun w => (o, w).

Definition bind {A B} (m : M A) (k : A -> M B) : M B := fun w =>
  match m w with
  | (Ret a, w') => k a w'
  | (Throw e, w') => (Throw e, w')
  end.

Notation "'let*' x ':=' m 'in' k" := (bind m (fun x => k))
  (at level 10, x name, m at level 100, k at level 200).

(** [try { body } catch (e) { handler }] *)
Definition try_catch {A} (body : M A) (handler : exn -> M A) : M A := fun w =>
  match body w with
  | (Ret a, w') => (Ret a, w')
  | (Throw e, w') => handler e w'
  end.

Definition read_issues (a : nat) (w : world) : list ZodIssue :=
  default [] (arrays w !! a).

(** [issues: []] *)
Definition new_array : M nat := fun w =>
  (Ret (next_array w),
   {| arrays := <[next_array w := []]> (arrays w);
      next_array := S (next_array w);
      zod_errors := zod_errors w;
      calls := calls w;
      global_errorMap := global_errorMap w |}).

(** The world after [array.push(issue)] on the array at [a]. *)
Definition pushed (a : nat) (i : ZodIssue) (w : world) : world :=
  {| arrays := <[a := read_issues a w ++ [i]]> (arrays w);
     next_array := next_array w;
     zod_errors := zod_errors w;
     calls := calls w;
     global_errorMap := global_errorMap w |}.

Definition push (a : nat) (i : ZodIssue) : M unit := fun w => (Ret tt, pushed a i w).

(** The world after a [bson] constructor was entered. *)
Definition logged (c : bson_call) (w : world) : world :=
  {| arrays := arrays w;
     next_array := next_array w;
     zod_errors := zod_errors w;
     calls := calls w ++ [c];
     global_errorMap := global_errorMap w |}.

Definition log_call (c : bson_call) : M unit := fun w => (Ret tt, logged c w).

(** [new z.ZodError(issues)]: the error keeps the array it is given. *)
Definition new_ZodError (a : nat) : M nat := fun w =>
  (Ret (length (zod_errors w)),
   {| arrays := arrays w;
      next_array := next_array w;
      zod_errors := zod_errors w ++ [a];
      calls := calls w;
      global_errorMap := global_errorMap w |}).

(** The issues of the [ZodError] object [e]. *)
Definition ZodError_issues (e : nat) (w : world) : list ZodIssue :=
  match zod_errors w !! e with
  | Some a => read_issues a w
  | None => []
  end.

(* ================================================================== *)
(** * JamfType.ts: contexts, inputs, results *)
(* ================================================================== *)

Inductive JamfFirstPartyTypeKind : Type := ObjectID.

(** A definition record: the [typeName] and Zod's optional [errorMap]. *)
Record Def := {
  typeName : JamfFirstPartyTypeKind;
  def_errorMap : option ZodErrorMap
}.

Inductive ZodParsedType : Type :=
  | zpt_string | zpt_number | zpt_boolean | zpt_undefined | zpt_null
  | zpt_array | zpt_promise | zpt_map | zpt_set | zpt_date | zpt_object.

(** [z.getParsedType] *)
Definition getParsedType (d : value) : ZodParsedType :=
  match d with
  | VUndefined => zpt_undefined
  | VNull => zpt_null
  | VBool _ => zpt_boolean
  | VNumber _ => zpt_number
  | VString _ => zpt_string
  | VObject "Array" _ => zpt_array
  | VObject "Promise" _ => zpt_promise
  | VObject "Map" _ => zpt_map
  | VObject "Set" _ => zpt_set
  | VObject "Date" _ => zpt_date
  | VObjectId _ | VDBRef _ _ _ | VObject _ _ => zpt_object
  end.

(** [ctx.common]: one object shared by a context and every context made
    from it.  [issues] is the address of its array. *)
Record Common := {
  issues : nat;
  async : bool;
  contextualErrorMap : option ZodErrorMap;
  parseToBSON : option bool
}.

Inductive ParseContext : Type := MkParseContext {
  common : Common;
  ctx_path : Path;
  schemaErrorMap : option ZodErrorMap;
  ctx_parent : option ParseContext;
  ctx_data : value;
  parsedType : ZodParsedType
}.

Record ParseInput := {
  data : value;
  path : Path;
  parent : ParseContext
}.

(** [Partial<JamfParseParams>] *)
Record JamfParseParams := {
  p_path : option Path;
  p_errorMap : option ZodErrorMap;
  p_async : option bool;
  p_parseToBSON : option bool
}.

Inductive ParseStatus : Type := status_valid | status_dirty | status_aborted.

(** [z.SyncParseReturnType]: [OK] with status valid or dirty, or [INVALID]. *)
Inductive SyncParseReturnType : Type :=
  | VALID (v : value)
  | DIRTY (v : value)
  | INVALID.

(** A promise is a computation that has not run yet. *)
Record Promise (A : Type) := Pending { await : M A }.
Arguments Pending {A} await.
Arguments await {A} p.

(** [z.ParseReturnType] *)
Inductive ParseReturnType : Type :=
  | Sync (r : SyncParseReturnType)
  | Async (p : Promise SyncParseReturnType).

(** [Promise.resolve(x)]: a promise is passed through. *)
Definition Promise_resolve (x : ParseReturnType) : Promise SyncParseReturnType :=
  match x with
  | Sync r => Pending (ret r)
  | Async p => p
  end.

(** [p.then(logic)] *)
Definition then_ (p : Promise SyncParseReturnType)
    (logic : SyncParseReturnType -> M ParseReturnType)
    : Promise SyncParseReturnType :=
  Pending (let* x := await p in
           let* y := logic x in
           await (Promise_resolve y)).

(** A schema, as far as the code here uses one: its class, its
    definition record and its [_parse] method. *)
Record ZodType := {
  class_name : string;
  _def : Def;
  _parse : ParseInput -> M ParseReturnType
}.

(** [ZodType._parseSync] *)
Definition _parseSync (schema : ZodType) (input : ParseInput) : M SyncParseReturnType :=
  let* result := _parse schema input in
  match result with
  | Async _ => throw (Error "Synchronous parse encountered promise.")
  | Sync r => ret r
  end.

(** [ZodType._parseAsync] *)
Definition _parseAsync (schema : ZodType) (input : ParseInput)
    : M (Promise SyncParseReturnType) :=
  let* result := _parse schema input in
  ret (Promise_resolve result).

(** [ZodType._processInputParams] *)
Definition _processInputParams (def : Def) (input : ParseInput)
    : ParseStatus * ParseContext :=
  (status_valid,
   {| common := common (parent input);
      ctx_data := data input;
      parsedType := getParsedType (data input);
      schemaErrorMap := def_errorMap def;
      ctx_path := path input;
      ctx_parent := Some (parent input) |}).

(** The issue [z.addIssueToContext] makes: contextual map, then the
    schema's, then the global one. *)
Definition context_issue (overrideMap : ZodErrorMap) (ctx : ParseContext)
    (issueData : IssueData) : ZodIssue :=
  makeIssue (ctx_data ctx) (ctx_path ctx)
    (omap id [contextualErrorMap (common ctx); schemaErrorMap ctx; Some overrideMap])
    issueData.

(** [getErrorMap()] *)
Definition getErrorMap : M ZodErrorMap := fun w => (Ret (global_errorMap w), w).

(** [z.addIssueToContext] *)
Definition addIssueToContext (ctx : ParseContext) (issueData : IssueData) : M unit :=
  let* overrideMap := getErrorMap in
  push (issues (common ctx)) (context_issue overrideMap ctx issueData).

(** [z.SafeParseReturnType].  A failure keeps the context it closes over
    and the [_error] slot its getter fills. *)
Inductive SafeParseReturnType : Type :=
  | SafeParseSuccess (d : value)
  | SafeParseError (ctx : ParseContext) (_error : option nat).

Definition success (r : SafeParseReturnType) : bool :=
  match r with SafeParseSuccess _ => true | SafeParseError _ _ => false end.

(** [handleResult] *)
Definition handleResult (ctx : ParseContext) (result : SyncParseReturnType)
    : M SafeParseReturnType := fun w =>
  match result with
  | VALID v => ret (SafeParseSuccess v) w
  | _ =>
      if (length (read_issues (issues (common ctx)) w) =? 0)%nat
      then throw (Error "Validation failed but no issues detected.") w
      else ret (SafeParseError ctx None) w
  end.

(** The getter [result.error]: the object after the read, and what was
    read ([undefined], here [None], on a success). *)
Definition get_error (r : SafeParseReturnType) : M (SafeParseReturnType * option nat) :=
  match r with
  | SafeParseSuccess _ => ret (r, None)
  | SafeParseError ctx (Some e) => ret (r, Some e)
  | SafeParseError ctx None =>
      let* error := new_ZodError (issues (common ctx)) in
      ret (SafeParseError ctx (Some error), Some error)
  end.

(* ================================================================== *)
(** * JamfUtilities.ts *)
(* ================================================================== *)

(** The [path] argument of [handleNestedParsing]: one segment or an array
    of them; [Array.prototype.concat] appends either. *)
Inductive PathArg : Type :=
  | Segment (s : PathSeg)
  | Segments (l : list PathSeg).

Definition concat (p : Path) (a : PathArg) : Path :=
  match a with
  | Segment s => p ++ [s]
  | Segments l => p ++ l
  end.

(** [handleNestedParsing] *)
Definition handleNestedParsing (schema : ZodType) (p : PathArg)
    (input : ParseInput) (d : value)
    (logic : SyncParseReturnType -> M ParseReturnType) : M ParseReturnType :=
  let inputParams :=
    {| data := d;
       path := concat (path input) p;
       parent := parent input |} in
  if async (common (parent input)) then
    let* deferred := _parseAsync schema inputParams in
    ret (Async (then_ deferred logic))
  else
    let* result := _parseSync schema inputParams in
    logic result.

(** What [new bson.ObjectId(v)] does with an argument that is not a
    string is left to the library.  A number makes it generate an
    identifier from its clock and its counter, so the same argument gets
    another identifier at every call; an object is searched for an [id].
    The answer is given as a function of the constructor calls made so far
    and of the argument, and the development holds for any such function.
    Such an argument can only come from a truthy [$oid] that is not a
    string. *)
Definition Generator : Type := list bson_call -> value -> exn + ObjectId.

Section Validators.

Variable ObjectId_of_other : Generator.

(** What the constructor answers after the calls in [history]: a string
    is decoded, whatever was called before. *)
Definition ObjectId_new (history : list bson_call) (arg : value) : exn + ObjectId :=
  match arg with
  | VString s => ObjectId_of_string s
  | _ => ObjectId_of_other history arg
  end.

Definition calls_so_far : M (list bson_call) := fun w => (Ret (calls w), w).

(** [new bson.ObjectId(arg)] *)
Definition new_ObjectId (arg : value) : M ObjectId :=
  let* history := calls_so_far in
  let* _ := log_call (NewObjectId arg) in
  match ObjectId_new history arg with
  | inr i => ret i
  | inl e => throw e
  end.

(** [new bson.DBRef(collection, oid, db)] *)
Definition new_DBRef (collection oid db : value) : M value :=
  let* _ := log_call (NewDBRef collection oid db) in
  match DBRef_new collection oid db with
  | inr r => ret r
  | inl e => throw e
  end.

(** [JamfObjectId._parse] *)
Definition JamfObjectId_parse (def : Def) (input : ParseInput) : M ParseReturnType :=
  let '(status, ctx) := _processInputParams def input in
  match data input with
  | VObjectId id =>
      if default false (parseToBSON (common ctx)) then
        ret (Sync (VALID (data input)))
      else
        let* fresh := new_ObjectId (VString (toHexString id)) in
        ret (Sync (VALID (VObjectId fresh)))
  | _ =>
      let construct (val : value) : M ParseReturnType :=
        try_catch
          (let* retval := new_ObjectId val in
           ret (Sync (VALID (if default false (parseToBSON (common ctx))
                             then VObjectId retval
                             else VString (toHexString retval)))))
          (fun e =>
             let* _ := addIssueToContext ctx
                         {| code := custom;
                            expected := None;
                            received := None;
                            message := Some (default "unknown error" (exn_message e)) |} in
             ret (Sync INVALID)) in
      let reject : M ParseReturnType :=
        let* r := lift (getUnkownType (data input)) in
        let* _ := addIssueToContext ctx
                    {| code := invalid_type;
                       expected := Some "ObjectId | string";
                       received := Some r;
                       message := None |} in
        ret (Sync INVALID) in
      if String.eqb (typeof (data input)) "string" then construct (data input)
      else if instanceof_Object (data input) then
        let* oid := lift (get_prop (data input) "$oid") in
        if truthy oid then construct oid else reject
      else reject
  end.

(** [JamfObjectId.create], exported as [objectid] *)
Definition JamfObjectId_create (_ : unit) : ZodType :=
  let def := {| typeName := ObjectID; def_errorMap := None |} in
  {| class_name := "JamfObjectId";
     _def := def;
     _parse := JamfObjectId_parse def |}.

Definition objectid := JamfObjectId_create.

(** The continuation [JamfDBRef._parse] hands to [handleNestedParsing];
    it closes over [input] and [ctx]. *)
Definition JamfDBRef_logic (input : ParseInput) (ctx : ParseContext)
    (result : SyncParseReturnType) : M ParseReturnType :=
  match result with
  | VALID v =>
      try_catch
        (let* ref := lift (get_prop (data input) "$ref") in
         let* db := lift (get_prop (data input) "$db") in
         let* r := new_DBRef ref v db in
         ret (Sync (VALID r)))
        (fun e =>
           let* _ := addIssueToContext ctx
                       {| code := custom;
                          expected := None;
                          received := None;
                          message := Some (default "unknown error" (exn_message e)) |} in
           ret (Sync INVALID))
  | _ => ret (Sync INVALID)
  end.

(** [JamfDBRef._parse]; [objectIDSchema] is the field of that name. *)
Definition JamfDBRef_parse (def : Def) (objectIDSchema : ZodType)
    (input : ParseInput) : M ParseReturnType :=
  let '(status, ctx) := _processInputParams def input in
  if instanceof_DBRef (data input) then
    ret (Sync (VALID (data input)))
  else
    let* has_fields :=
      if String.eqb (typeof (data input)) "object" then
        let* ref := lift (get_prop (data input) "$ref") in
        if truthy ref then
          let* id := lift (get_prop (data input) "$id") in
          ret (truthy id)
        else ret false
      else ret false in
    if has_fields then
      let* id := lift (get_prop (data input) "$id") in
      handleNestedParsing objectIDSchema (Segment (Key "$id")) input id
        (JamfDBRef_logic input ctx)
    else
      let* r := lift (getUnkownType (data input)) in
      let* _ := addIssueToContext ctx
                  {| code := invalid_type;
                     expected := Some "DBRef";
                     received := Some r;
                     message := None |} in
      ret (Sync INVALID).

(** [new JamfDBRef(def)]: the class has a public constructor; its field
    initialiser runs [objectid()]. *)
Definition JamfDBRef_new (def : Def) : ZodType :=
  {| class_name := "JamfDBRef";
     _def := def;
     _parse := JamfDBRef_parse def (objectid tt) |}.

(** [new JamfObjectId(def)] *)
Definition JamfObjectId_new (def : Def) : ZodType :=
  {| class_name := "JamfObjectId";
     _def := def;
     _parse := JamfObjectId_parse def |}.

(** [JamfDBRef.create], exported as [dbref] *)
Definition JamfDBRef_create (_ : unit) : ZodType :=
  JamfObjectId_new {| typeName := ObjectID; def_errorMap := None |}.

Definition dbref := JamfDBRef_create.

(* ================================================================== *)
(** * JamfType.ts: the entry points *)
(* ================================================================== *)

(** The context [safeParse] builds, once its issue array is allocated. *)
Definition safeParse_ctx (schema : ZodType) (d : value)
    (params : option JamfParseParams) (a : nat) : ParseContext :=
  {| common :=
       {| issues := a;
          async := default false (params ≫= p_async);
          contextualErrorMap := params ≫= p_errorMap;
          parseToBSON := Some (default false (params ≫= p_parseToBSON)) |};
     ctx_path := default [] (params ≫= p_path);
     schemaErrorMap := def_errorMap (_def schema);
     ctx_parent := None;
     ctx_data := d;
     parsedType := getParsedType d |}.

(** [JamfType.safeParse] *)
Definition safeParse (schema : ZodType) (d : value)
    (params : option JamfParseParams) : M SafeParseReturnType :=
  let* a := new_array in
  let ctx := safeParse_ctx schema d params a in
  let* result := _parseSync schema {| data := d; path := ctx_path ctx; parent := ctx |} in
  handleResult ctx result.

(** The context [safeParseAsync] builds. *)
Definition safeParseAsync_ctx (schema : ZodType) (d : value)
    (params : option JamfParseParams) (a : nat) : ParseContext :=
  {| common :=
       {| issues := a;
          contextualErrorMap := params ≫= p_errorMap;
          async := true;
          parseToBSON := Some (default false (params ≫= p_parseToBSON)) |};
     ctx_path := default [] (params ≫= p_path);
     schemaErrorMap := def_errorMap (_def schema);
     ctx_parent := None;
     ctx_data := d;
     parsedType := getParsedType d |}.

(** [JamfType.safeParseAsync].  An [async] function runs up to its first
    [await] when called and hands back a promise for the rest; what it
    raises on the way rejects that promise. *)
Definition safeParseAsync (schema : ZodType) (d : value)
    (params : option JamfParseParams) : M (Promise SafeParseReturnType) := fun w =>
  let run :=
    let* a := new_array in
    let ctx := safeParseAsync_ctx schema d params a in
    let* maybeAsyncResult :=
      _parse schema {| data := d; path := ctx_path ctx; parent := ctx |} in
    ret (ctx, maybeAsyncResult) in
  match run w with
  | (Ret (ctx, maybeAsyncResult), w') =>
      (Ret (Pending (let* result := await (Promise_resolve maybeAsyncResult) in
                     handleResult ctx result)), w')
  | (Throw e, w') => (Ret (Pending (throw e)), w')
  end.

(** [await schema.safeParseAsync(d, params)] *)
Definition safeParseAsync_awaited (schema : ZodType) (d : value)
    (params : option JamfParseParams) : M SafeParseReturnType :=
  let* p := safeParseAsync schema d params in
  await p.

End Validators.

(* ================================================================== *)
(** * Vocabulary of the properties *)
(* ================================================================== *)

(** The two validators of JamfUtilities.ts, built with [new]. *)
Inductive Validator : Type :=
  | Identifier (def : Def)
  | Reference (def : Def).

Definition schema_of (other : Generator) (v : Validator) : ZodType :=
  match v with
  | Identifier def => JamfObjectId_new other def
  | Reference def => JamfDBRef_new other def
  end.

(** What [JamfObjectId._parse] hands to the constructor ([val]): the data
    if it is a string, else a truthy [$oid] of an object, whatever that
    is. *)
Definition candidate (d : value) : option value :=
  match d with
  | VString _ => Some d
  | VObject _ props =>
      if truthy (lookup_prop "$oid" props) then Some (lookup_prop "$oid" props) else None
  | _ => None
  end.

(** The test of [JamfDBRef._parse] on an object: both [$ref] and [$id]
    are truthy. *)
Definition delegates (d : value) : bool :=
  match d with
  | VObject _ props => truthy (lookup_prop "$ref" props) && truthy (lookup_prop "$id" props)
  | _ => false
  end.

(** A synchronous parse that meets a promise: the reference validator,
    asked by the caller to be asynchronous, on data it delegates. *)
Definition defers (v : Validator) (params : option JamfParseParams) (d : value) : bool :=
  match v with
  | Identifier _ => false
  | Reference _ => default false (params ≫= p_async) && delegates d
  end.

Definition invalid_type_issue (exp : string) (rcv : value) : IssueData :=
  {| code := invalid_type; expected := Some exp; received := Some rcv; message := None |}.

(** The value [JamfDBRef._parse] hands to the identifier validator. *)
Definition nested_id (d : value) : value :=
  match d with
  | VObject _ props => lookup_prop "$id" props
  | _ => VUndefined
  end.

(** The identifier validator hands the constructor something that is not
    a string (a truthy [$oid] that is not one): the library may generate. *)
Definition generated (d : value) : bool :=
  match candidate d with
  | Some (VString _) | None => false
  | Some _ => true
  end.

Definition generates (v : Validator) (d : value) : bool :=
  match v with
  | Identifier _ => generated d
  | Reference _ => delegates d && generated (nested_id d)
  end.

(** The type of the data has a name to report: [getUnkownType] returns,
    and returns a string. *)
Definition named (d : value) : bool :=
  match getUnkownType d with
  | Ret (VString _) => true
  | _ => false
  end.

(** Two worlds a parse step cannot tell apart, the one writing to the
    array at [a1], the other to the array at [a2]: the arrays hold the
    same issues and the global error map is the same. *)
Definition alike (a1 a2 : nat) (w1 w2 : world) : Prop :=
  read_issues a1 w1 = read_issues a2 w2
  /\ global_errorMap w1 = global_errorMap w2.

Definition custom_issue (e : exn) : IssueData :=
  {| code := custom; expected := None; received := None;
     message := Some (default "unknown error" (exn_message e)) |}.

(** [z.isValid] *)
Definition isValid (r : SyncParseReturnType) : bool :=
  match r with VALID _ => true | _ => false end.

(** What the caller sees of a finished parse: the data, or the issues
    behind [result.error]; or what was raised. *)
Inductive Observed : Type :=
  | Succeeded (d : value)
  | Failed (l : list ZodIssue).

Definition observe (x : outcome SafeParseReturnType * world) : outcome Observed :=
  match x with
  | (Ret (SafeParseSuccess d), _) => Ret (Succeeded d)
  | (Ret (SafeParseError ctx _), w) => Ret (Failed (read_issues (issues (common ctx)) w))
  | (Throw e, _) => Throw e
  end.

(** A validator that answers with the mode of the context it runs in. *)
Definition mode_probe : ZodType :=
  {| class_name := "probe";
     _def := {| typeName := ObjectID; def_errorMap := None |};
     _parse := fun input => ret (Sync (VALID (VBool (async (common (parent input)))))) |}.

(** Sample data. *)
Definition bson_rejects : Generator :=
  fun _ _ => inl (BSONError "Argument passed in does not match the accepted types").

(** A library that generates: the identifier it answers with counts the
    calls made before. *)
Definition bson_counts : Generator :=
  fun history _ =>
    inr (MkObjectId x00 x00 x00 x00 x00 x00 x00 x00 x00 x00 x00
           (default x00 (Byte.of_N (N.of_nat (length history) mod 256)))).

(** A global error map with the wording of Zod's default map for the two
    codes in use, where the received type is a string. *)
Definition plain_errorMap : ZodErrorMap := fun issue _ _ _ =>
  match code issue with
  | invalid_type =>
      match received issue with
      | Some (VString "undefined") => "Required"
      | Some (VString r) =>
          "Expected " +:+ default "undefined" (expected issue) +:+ ", received " +:+ r
      | _ => "Invalid input"
      end
  | custom => "Invalid input"
  end.

Definition initial : world :=
  {| arrays := ∅; next_array := 0; zod_errors := []; calls := [];
     global_errorMap := plain_errorMap |}.

Definition plain_def : Def := {| typeName := ObjectID; def_errorMap := None |}.

Definition only_async (b : bool) : option JamfParseParams :=
  Some {| p_path := None; p_errorMap := None; p_async := Some b; p_parseToBSON := None |}.

Definition only_parseToBSON (b : bool) : option JamfParseParams :=
  Some {| p_path := None; p_errorMap := None; p_async := None; p_parseToBSON := Some b |}.

Definition reference_object (ref id : value) : value :=
  VObject "Object" [("$ref", ref); ("$id", id)].

Definition sample_hex : string := "507f1f77bcf86cd799439011".

(** [{ $ref: "", $id: "507f1f77bcf86cd799439011", constructor: null }] *)
Definition nameless_reference : value :=
  VObject "Object"
    [("$ref", VString ""); ("$id", VString sample_hex); ("constructor", VNull)].

Definition sample_HEX : string := "507F1F77BCF86CD799439011".

Definition sample_id : ObjectId :=
  MkObjectId x50 x7f x1f x77 xbc xf8 x6c xd7 x99 x43 x90 x11.

Definition sample_issue : ZodIssue :=
  {| issue_code := custom;
     issue_expected := None;
     issue_received := None;
     issue_path := [];
     issue_message := "unknown error" |}.

(** What a step may do to the world: append the issues [li] to the array
    at [a], enter the constructors [lc], and nothing else (Zod's global
    error map stays). *)
Definition grows (a : nat) (li : list ZodIssue) (lc : list bson_call)
    (w w' : world) : Prop :=
  read_issues a w' = read_issues a w ++ li
  /\ (forall b, b <> a -> read_issues b w' = read_issues b w)
  /\ calls w' = calls w ++ lc
  /\ zod_errors w' = zod_errors w
  /\ next_array w' = next_array w
  /\ global_errorMap w' = global_errorMap w.

(** The caller's parameters without their [async] entry. *)
Definition without_async (params : option JamfParseParams) : option JamfParseParams :=
  match params with
  | Some p =>
      Some {| p_path := p_path p; p_errorMap := p_errorMap p;
              p_async := None; p_parseToBSON := p_parseToBSON p |}
  | None => None
  end.

(** The caller's parameters with [parseToBSON] set. *)
Definition with_parseToBSON (b : bool) (params : option JamfParseParams)
    : option JamfParseParams :=
  Some {| p_path := params ≫= p_path; p_errorMap := params ≫= p_errorMap;
          p_async := params ≫= p_async; p_parseToBSON := Some b |}.

(* ================================================================== *)
(** * The issue arrays *)
(* ================================================================== *)

Lemma read_pushed a i w : read_issues a (pushed a i w) = read_issues a w ++ [i].
Proof. unfold read_issues at 1, pushed. cbn [arrays]. rewrite lookup_insert_eq. reflexivity. Qed.

Lemma read_pushed_ne a b i w : a <> b -> read_issues b (pushed a i w) = read_issues b w.
Proof.
  intros H. unfold read_issues, pushed. cbn [arrays].
  rewrite lookup_insert_ne by exact H. reflexivity.
Qed.

Lemma read_logged a c w : read_issues a (logged c w) = read_issues a w.
Proof. reflexivity. Qed.

Lemma read_new_array w : read_issues (next_array w) (snd (new_array w)) = [].
Proof. unfold read_issues, new_array. cbn [snd arrays]. rewrite lookup_insert_eq. reflexivity. Qed.

Lemma handleResult_issues ctx r w i l :
  isValid r = false ->
  read_issues (issues (common ctx)) w = i :: l ->
  handleResult ctx r w = (Ret (SafeParseError ctx None), w).
Proof.
  intros Hr Hi. unfold handleResult. rewrite Hi.
  destruct r; [discriminate|reflexivity..].
Qed.

(* ================================================================== *)
(** * The identifier constructor and the hex form *)
(* ================================================================== *)

Lemma hex_value_spec c h :
  hex_value c = Some h -> (h < 16)%N /\ hex_digit h = lower_ascii c.
Proof.
  intros H.
  destruct c as [[] [] [] [] [] [] [] []]; cbv in H; try discriminate;
    injection H as <-; split; reflexivity.
Qed.

Lemma decode_byte_lower c1 c2 b :
  decode_byte c1 c2 = Some b ->
  encode_byte b = String (lower_ascii c1) (String (lower_ascii c2) EmptyString).
Proof.
  unfold decode_byte, encode_byte.
  destruct (hex_value c1) as [h|] eqn:H1; [|discriminate].
  destruct (hex_value c2) as [l|] eqn:H2; [|discriminate].
  apply hex_value_spec in H1 as [Hh <-], H2 as [Hl <-].
  intros Hb. apply Byte.to_of_N in Hb. rewrite Hb.
  replace ((16 * h + l) / 16)%N with h by (apply N.div_unique with l; lia).
  replace ((16 * h + l) mod 16)%N with l by (apply N.mod_unique with h; lia).
  reflexivity.
Qed.

Lemma decode_byte_hex c1 c2 :
  is_hex c1 = true -> is_hex c2 = true -> exists b, decode_byte c1 c2 = Some b.
Proof.
  unfold is_hex, decode_byte.
  destruct (hex_value c1) as [h|] eqn:H1; [|discriminate].
  destruct (hex_value c2) as [l|] eqn:H2; [|discriminate].
  apply hex_value_spec in H1 as [Hh _], H2 as [Hl _]. intros _ _.
  destruct (Byte.of_N (16 * h + l)) as [b|] eqn:Hb; [eauto|].
  apply Byte.of_N_None_iff in Hb. lia.
Qed.

Lemma encode_byte_decode b :
  exists c1 c2, encode_byte b = String c1 (String c2 EmptyString)
    /\ decode_byte c1 c2 = Some b /\ is_hex c1 = true /\ is_hex c2 = true.
Proof.
  eexists _, _. split; [reflexivity|].
  destruct b; vm_compute; auto.
Qed.

Lemma fromHex_all_hex s :
  all_hex s = true -> Nat.even (String.length s) = true ->
  exists bs, fromHex s = Some bs /\ toHex bs = toLowerCase s
             /\ String.length s = 2 * length bs.
Proof.
  enough (H : (all_hex s = true -> Nat.even (String.length s) = true ->
            exists bs, fromHex s = Some bs /\ toHex bs = toLowerCase s
                       /\ String.length s = 2 * length bs)
          /\ forall c, all_hex (String c s) = true ->
               Nat.even (String.length (String c s)) = true ->
               exists bs, fromHex (String c s) = Some bs
                          /\ toHex bs = toLowerCase (String c s)
                          /\ String.length (String c s) = 2 * length bs)
    by apply H.
  induction s as [|a s [IH1 IH2]].
  - split; [exists []; auto|]. intros c _ H. discriminate.
  - split; [apply IH2|].
    intros c Hhex Hlen.
    cbn [all_hex] in Hhex.
    apply andb_true_iff in Hhex as [Hc Hhex].
    apply andb_true_iff in Hhex as [Ha Hs].
    destruct (decode_byte_hex c a Hc Ha) as [b Hb].
    destruct (IH1 Hs) as (bs & Hbs & Hlow & Hl).
    { cbn [String.length] in Hlen. exact Hlen. }
    exists (b :: bs). cbn [fromHex]. rewrite Hb, Hbs. split; [reflexivity|].
    cbn [toHex toLowerCase]. rewrite (decode_byte_lower _ _ _ Hb), Hlow.
    split; [reflexivity|]. cbn [String.length length]. lia.
Qed.

Lemma ObjectId_of_buffer_12 bs :
  length bs = 12 -> exists i, ObjectId_of_buffer bs = Some i /\ oid_buffer i = bs.
Proof.
  intros H.
  do 13 (destruct bs as [|? bs]; try discriminate H).
  eexists. split; reflexivity.
Qed.

Lemma ObjectId_of_string_hex24 s :
  is_hex24 s = true ->
  exists i, ObjectId_of_string s = inr i /\ toHexString i = toLowerCase s.
Proof.
  intros H. unfold ObjectId_of_string. rewrite H.
  apply andb_true_iff in H as [Hlen Hhex].
  apply Nat.eqb_eq in Hlen.
  destruct (fromHex_all_hex s Hhex) as (bs & Hbs & Hlow & Hl).
  { rewrite Hlen. reflexivity. }
  destruct (ObjectId_of_buffer_12 bs) as (i & Hi & Hbuf); [lia|].
  exists i. split.
  - rewrite Hbs. cbn. rewrite Hi. reflexivity.
  - unfold toHexString. rewrite Hbuf. exact Hlow.
Qed.

(** The strings the constructor takes are exactly those of 24 hex digits. *)
Lemma ObjectId_of_string_accepts s :
  (exists i, ObjectId_of_string s = inr i) <-> is_hex24 s = true.
Proof.
  split.
  - intros [i H]. unfold ObjectId_of_string in H.
    destruct (is_hex24 s); [reflexivity|discriminate].
  - intros H. destruct (ObjectId_of_string_hex24 s H) as (i & Hi & _). eauto.
Qed.

Lemma toHex_fromHex bs :
  fromHex (toHex bs) = Some bs /\ all_hex (toHex bs) = true
  /\ String.length (toHex bs) = 2 * length bs.
Proof.
  induction bs as [|b bs (IH1 & IH2 & IH3)]; [auto|].
  destruct (encode_byte_decode b) as (c1 & c2 & He & Hd & H1 & H2).
  cbn [toHex]. rewrite He.
  change (String c1 (String c2 "") +:+ toHex bs)
    with (String c1 (String c2 (toHex bs))).
  cbn [fromHex all_hex String.length].
  rewrite Hd, IH1, H1, H2, IH2, IH3.
  repeat split; auto. cbn [length]. lia.
Qed.

Lemma ObjectId_of_string_toHexString i :
  ObjectId_of_string (toHexString i) = inr i.
Proof.
  unfold ObjectId_of_string, toHexString, is_hex24.
  destruct (toHex_fromHex (oid_buffer i)) as (H1 & H2 & H3).
  rewrite H1, H2, H3. destruct i; reflexivity.
Qed.

(* ================================================================== *)
(** * The name of a type *)
(* ================================================================== *)

Lemma lookup_own_prop key props :
  lookup_prop key props = default VUndefined (own_prop key props).
Proof.
  induction props as [|[k v] rest IH]; [reflexivity|].
  cbn [lookup_prop own_prop]. destruct (String.eqb k key); [reflexivity|exact IH].
Qed.

(** An object that does not shadow its constructor is named after its
    class. *)
Lemma getUnkownType_class cn props :
  own_prop "constructor" props = None ->
  getUnkownType (VObject cn props) = Ret (VString cn).
Proof.
  intros H. unfold getUnkownType, constructor_name. cbn. rewrite H. reflexivity.
Qed.

Lemma getUnkownType_raises d e :
  getUnkownType d = Throw e ->
  exists cn props v,
    d = VObject cn props /\ own_prop "constructor" props = Some v
    /\ (v = VNull \/ v = VUndefined).
Proof.
  destruct d as [| |b|n|s|i|c o db|cn props]; try discriminate.
  unfold getUnkownType, constructor_name. cbn.
  destruct (own_prop "constructor" props) as [v|] eqn:Hv; [|discriminate].
  intros H. exists cn, props, v. split; [reflexivity|]. split; [exact Hv|].
  destruct v; try discriminate H; auto.
Qed.

Example constructor_name_read :
  constructor_name (VBool true) = Ret (VString "Boolean")
  /\ constructor_name (VNumber 1) = Ret (VString "Number")
  /\ constructor_name (VString "abc") = Ret (VString "String")
  /\ constructor_name (VObject "Object" [("constructor", VNumber 5)]) = Ret VUndefined
  /\ constructor_name (VObject "Object" [("constructor", VObject "Object" [])])
     = Ret VUndefined
  /\ constructor_name VNull
     = Throw (TypeError "Cannot read properties of null (reading 'constructor')").
Proof. repeat split. Qed.

Lemma named_string d : named d = true -> exists r, getUnkownType d = Ret (VString r).
Proof.
  unfold named. destruct (getUnkownType d) as [[| | | |r| | |]|]; try discriminate. eauto.
Qed.

Section Properties.
Variable other : Generator.

Lemma new_ObjectId_run arg w :
  new_ObjectId other arg w =
  (match ObjectId_new other (calls w) arg with inr i => Ret i | inl e => Throw e end,
   logged (NewObjectId arg) w).
Proof.
  unfold new_ObjectId, bind, log_call, calls_so_far.
  destruct (ObjectId_new other (calls w) arg); reflexivity.
Qed.

Lemma new_DBRef_run c o d w :
  new_DBRef c o d w =
  (match DBRef_new c o d with inr r => Ret r | inl e => Throw e end,
   logged (NewDBRef c o d) w).
Proof.
  unfold new_DBRef, bind, log_call. destruct (DBRef_new c o d); reflexivity.
Qed.

(** An identifier instance: returned as it is, or rebuilt from its hex form. *)
Lemma JamfObjectId_parse_instance def input i w :
  data input = VObjectId i ->
  JamfObjectId_parse other def input w =
  (Ret (Sync (VALID (VObjectId i))),
   if default false (parseToBSON (common (parent input))) then w
   else logged (NewObjectId (VString (toHexString i))) w).
Proof.
  intros Hd. unfold JamfObjectId_parse, _processInputParams. rewrite Hd.
  cbn [common]. destruct (default false _); [reflexivity|].
  unfold bind. rewrite new_ObjectId_run. cbn [ObjectId_new].
  rewrite ObjectId_of_string_toHexString. reflexivity.
Qed.

(** A string or a tagged object: the constructor decides. *)
Lemma JamfObjectId_parse_candidate def input val w :
  instanceof_ObjectId (data input) = false ->
  candidate (data input) = Some val ->
  JamfObjectId_parse other def input w =
  match ObjectId_new other (calls w) val with
  | inr i =>
      (Ret (Sync (VALID (if default false (parseToBSON (common (parent input)))
                         then VObjectId i else VString (toHexString i)))),
       logged (NewObjectId val) w)
  | inl e =>
      (Ret (Sync INVALID),
       pushed (issues (common (parent input)))
         (context_issue (global_errorMap w) (snd (_processInputParams def input))
            (custom_issue e))
         (logged (NewObjectId val) w))
  end.
Proof.
  intros Hi Hc. unfold JamfObjectId_parse, _processInputParams.
  cbn [snd common].
  destruct (data input) as [| |b|n|s|i|c o db|cn props] eqn:Hd;
    try discriminate; cbn in Hc |- *.
  - injection Hc as <-.
    unfold try_catch, bind. rewrite new_ObjectId_run.
    destruct (ObjectId_new other (calls w) (VString s)); reflexivity.
  - unfold bind at 1, lift.
    destruct (truthy (lookup_prop "$oid" props)); [|discriminate].
    injection Hc as <-.
    unfold try_catch, bind. rewrite new_ObjectId_run.
    destruct (ObjectId_new other (calls w) _); reflexivity.
Qed.

(** Anything else: one [invalid_type] issue, once the type has been
    named; what [getUnkownType] raises leaves the step before the issue
    is made. *)
Lemma JamfObjectId_parse_reject def input w :
  instanceof_ObjectId (data input) = false ->
  candidate (data input) = None ->
  JamfObjectId_parse other def input w =
  match getUnkownType (data input) with
  | Ret r =>
      (Ret (Sync INVALID),
       pushed (issues (common (parent input)))
         (context_issue (global_errorMap w) (snd (_processInputParams def input))
            (invalid_type_issue "ObjectId | string" r)) w)
  | Throw e => (Throw e, w)
  end.
Proof.
  intros Hi Hc.
  unfold JamfObjectId_parse, _processInputParams.
  cbn [snd common].
  destruct (data input) as [| |b|n|s|i|c o db|cn props] eqn:Hd;
    try discriminate; try reflexivity.
  cbn in Hc |- *. unfold bind at 1, lift.
  destruct (truthy (lookup_prop "$oid" props)); [discriminate|].
  unfold bind, lift. destruct (getUnkownType (VObject cn props)); reflexivity.
Qed.

(** The step returns a result, never a promise; or [getUnkownType] raised
    on data it was about to reject, and nothing was written. *)
Lemma JamfObjectId_parse_outcome def input w :
  (exists r w', JamfObjectId_parse other def input w = (Ret (Sync r), w'))
  \/ (exists e, JamfObjectId_parse other def input w = (Throw e, w)
               /\ instanceof_ObjectId (data input) = false
               /\ candidate (data input) = None
               /\ getUnkownType (data input) = Throw e).
Proof.
  destruct (instanceof_ObjectId (data input)) eqn:Hi.
  - left. destruct (data input) eqn:Hd; try discriminate.
    rewrite (JamfObjectId_parse_instance _ _ _ _ Hd). eauto.
  - destruct (candidate (data input)) as [val|] eqn:Hc.
    + left. rewrite (JamfObjectId_parse_candidate _ _ _ _ Hi Hc).
      destruct (ObjectId_new other (calls w) val); eauto.
    + rewrite (JamfObjectId_parse_reject def input w Hi Hc).
      destruct (getUnkownType (data input)) as [r|e]; [left|right]; eauto.
Qed.

(** The step looks at three things of its context: the issue array, the
    [parseToBSON] flag and the contextual error map. *)
Lemma JamfObjectId_parse_ext def d p c1 c2 w :
  issues (common c1) = issues (common c2) ->
  parseToBSON (common c1) = parseToBSON (common c2) ->
  contextualErrorMap (common c1) = contextualErrorMap (common c2) ->
  JamfObjectId_parse other def {| data := d; path := p; parent := c1 |} w
  = JamfObjectId_parse other def {| data := d; path := p; parent := c2 |} w.
Proof.
  intros H1 H2 H3.
  destruct (instanceof_ObjectId d) eqn:Hi.
  - destruct d; try discriminate.
    rewrite !(JamfObjectId_parse_instance def _ id) by reflexivity.
    cbn [parent]. rewrite H2. reflexivity.
  - destruct (candidate d) as [val|] eqn:Hc.
    + rewrite !(JamfObjectId_parse_candidate def _ val) by assumption.
      unfold context_issue, _processInputParams.
      cbn [parent snd common ctx_data ctx_path schemaErrorMap data path].
      rewrite H1, H2, H3. reflexivity.
    + rewrite !(JamfObjectId_parse_reject def _ w) by assumption.
      unfold context_issue, _processInputParams.
      cbn [parent snd common ctx_data ctx_path schemaErrorMap data path].
      rewrite H1, H3. reflexivity.
Qed.
End Properties.

Lemma JamfDBRef_parse_instance def sub input c o db w :
  data input = VDBRef c o db ->
  JamfDBRef_parse def sub input w = (Ret (Sync (VALID (data input))), w).
Proof.
  intros Hd. unfold JamfDBRef_parse, _processInputParams. rewrite Hd. reflexivity.
Qed.

Lemma JamfDBRef_parse_null def sub input w :
  data input = VNull ->
  JamfDBRef_parse def sub input w =
  (Throw (TypeError "Cannot read properties of null (reading '$ref')"), w).
Proof.
  intros Hd. unfold JamfDBRef_parse, _processInputParams. rewrite Hd. reflexivity.
Qed.

Lemma JamfDBRef_parse_reject def sub input w :
  instanceof_DBRef (data input) = false ->
  data input <> VNull ->
  delegates (data input) = false ->
  JamfDBRef_parse def sub input w =
  match getUnkownType (data input) with
  | Ret r =>
      (Ret (Sync INVALID),
       pushed (issues (common (parent input)))
         (context_issue (global_errorMap w) (snd (_processInputParams def input))
            (invalid_type_issue "DBRef" r)) w)
  | Throw e => (Throw e, w)
  end.
Proof.
  intros Hi Hn Hdel.
  unfold JamfDBRef_parse, _processInputParams.
  cbn [snd common].
  destruct (data input) as [| |b|n|s|i|c o db|cn props] eqn:Hd;
    try discriminate; try reflexivity; try congruence.
  cbn in Hdel |- *. unfold bind at 1. unfold bind at 1. unfold lift.
  destruct (truthy (lookup_prop "$ref" props)); cbn in Hdel |- *.
  - unfold bind at 1. rewrite Hdel. unfold ret at 1.
    unfold bind, lift. destruct (getUnkownType (VObject cn props)); reflexivity.
  - unfold ret at 1. unfold bind, lift.
    destruct (getUnkownType (VObject cn props)); reflexivity.
Qed.

Lemma JamfDBRef_parse_delegate def sub input cn props w :
  data input = VObject cn props ->
  delegates (data input) = true ->
  JamfDBRef_parse def sub input w =
  handleNestedParsing sub (Segment (Key "$id")) input (lookup_prop "$id" props)
    (JamfDBRef_logic input (snd (_processInputParams def input))) w.
Proof.
  intros Hd Hdel. rewrite Hd in Hdel. cbn in Hdel.
  apply andb_true_iff in Hdel as [Hr Hi].
  unfold JamfDBRef_parse, _processInputParams. cbn [snd]. rewrite Hd.
  cbn. unfold bind at 1. unfold bind at 1. unfold lift. rewrite Hr.
  unfold bind at 1. rewrite Hi. unfold ret at 1. unfold bind at 1. reflexivity.
Qed.

(** The continuation: a valid identifier goes to the constructor of
    references, whose raise is caught; anything else stays invalid. *)
Lemma JamfDBRef_logic_cases input ctx cn props r w :
  data input = VObject cn props ->
  JamfDBRef_logic input ctx r w
  = match r with
    | VALID v =>
        match DBRef_new (lookup_prop "$ref" props) v (lookup_prop "$db" props) with
        | inr x =>
            (Ret (Sync (VALID x)),
             logged (NewDBRef (lookup_prop "$ref" props) v (lookup_prop "$db" props)) w)
        | inl e =>
            (Ret (Sync INVALID),
             pushed (issues (common ctx))
               (context_issue (global_errorMap w) ctx (custom_issue e))
               (logged (NewDBRef (lookup_prop "$ref" props) v (lookup_prop "$db" props)) w))
        end
    | _ => (Ret (Sync INVALID), w)
    end.
Proof.
  intros Hd. destruct r; try reflexivity.
  unfold JamfDBRef_logic. rewrite Hd. unfold try_catch, bind, lift. cbn [get_prop].
  rewrite new_DBRef_run. destruct (DBRef_new _ _ _); reflexivity.
Qed.

Lemma JamfDBRef_logic_returns input ctx cn props r w :
  data input = VObject cn props ->
  exists r' w', JamfDBRef_logic input ctx r w = (Ret (Sync r'), w').
Proof.
  intros Hd. rewrite (JamfDBRef_logic_cases input ctx cn props r w Hd).
  destruct r; eauto. destruct (DBRef_new _ _ _); eauto.
Qed.

Lemma JamfDBRef_logic_ext i1 i2 c1 c2 cn props r w :
  data i1 = VObject cn props ->
  data i2 = VObject cn props ->
  issues (common c1) = issues (common c2) ->
  (forall g, context_issue g c1 = context_issue g c2) ->
  JamfDBRef_logic i1 c1 r w = JamfDBRef_logic i2 c2 r w.
Proof.
  intros H1 H2 H3 H4.
  rewrite (JamfDBRef_logic_cases i1 c1 cn props r w H1),
    (JamfDBRef_logic_cases i2 c2 cn props r w H2), H3, H4.
  reflexivity.
Qed.

Section EntryPoints.
Variable other : Generator.

Lemma handleResult_observe c1 c2 r w :
  issues (common c1) = issues (common c2) ->
  observe (handleResult c1 r w) = observe (handleResult c2 r w)
  /\ snd (handleResult c1 r w) = snd (handleResult c2 r w).
Proof.
  intros H. unfold handleResult. rewrite H.
  destruct r; cbn; auto;
    destruct (length (read_issues (issues (common c2)) w) =? 0)%nat; cbn;
    rewrite ?H; auto.
Qed.

Lemma safeParse_run schema d params w :
  safeParse schema d params w =
  let ctx := safeParse_ctx schema d params (next_array w) in
  match _parseSync schema
          {| data := d; path := default [] (params ≫= p_path); parent := ctx |}
          (snd (new_array w)) with
  | (Ret r, w') => handleResult ctx r w'
  | (Throw e, w') => (Throw e, w')
  end.
Proof. reflexivity. Qed.

Lemma safeParseAsync_awaited_run schema d params w :
  safeParseAsync_awaited schema d params w =
  let ctx := safeParseAsync_ctx schema d params (next_array w) in
  match (let* x := _parse schema
                     {| data := d; path := default [] (params ≫= p_path);
                        parent := ctx |} in
         await (Promise_resolve x)) (snd (new_array w)) with
  | (Ret r, w') => handleResult ctx r w'
  | (Throw e, w') => (Throw e, w')
  end.
Proof.
  unfold safeParseAsync_awaited, safeParseAsync, bind.
  cbn [new_array snd safeParseAsync_ctx ctx_path].
  destruct (_parse schema _ _) as [[x|e] w']; reflexivity.
Qed.

(** Both entry points allocate the array, run the parse step and resolve
    the result; they agree as soon as the two ways of running the step do. *)
Lemma entry_points_agree schema d params w :
  (forall a w1,
     _parseSync schema
       {| data := d; path := default [] (params ≫= p_path);
          parent := safeParse_ctx schema d params a |} w1
     = (let* x := _parse schema
                    {| data := d; path := default [] (params ≫= p_path);
                       parent := safeParseAsync_ctx schema d params a |} in
        await (Promise_resolve x)) w1) ->
  observe (safeParse schema d params w)
  = observe (safeParseAsync_awaited schema d params w)
  /\ snd (safeParse schema d params w)
     = snd (safeParseAsync_awaited schema d params w).
Proof.
  intros H. rewrite safeParse_run, safeParseAsync_awaited_run. cbv zeta.
  rewrite H.
  destruct ((let* x := _parse schema _ in await (Promise_resolve x)) _)
    as [[r|e] w']; [|auto].
  apply handleResult_observe. reflexivity.
Qed.

Lemma Identifier_steps_agree def d p cs ca w1 :
  issues (common cs) = issues (common ca) ->
  parseToBSON (common cs) = parseToBSON (common ca) ->
  contextualErrorMap (common cs) = contextualErrorMap (common ca) ->
  _parseSync (JamfObjectId_new other def) {| data := d; path := p; parent := cs |} w1
  = (let* x := _parse (JamfObjectId_new other def)
                 {| data := d; path := p; parent := ca |} in
     await (Promise_resolve x)) w1.
Proof.
  intros H1 H2 H3. unfold _parseSync, bind.
  change (_parse (JamfObjectId_new other def)) with (JamfObjectId_parse other def).
  rewrite (JamfObjectId_parse_ext other def d p cs ca w1 H1 H2 H3).
  destruct (JamfObjectId_parse_outcome other def
              {| data := d; path := p; parent := ca |} w1)
    as [(r & w' & ->)|(e & -> & _)]; reflexivity.
Qed.

Lemma context_issue_mode g def d p c1 c2 :
  contextualErrorMap (common c1) = contextualErrorMap (common c2) ->
  context_issue g (snd (_processInputParams def {| data := d; path := p; parent := c1 |}))
  = context_issue g (snd (_processInputParams def {| data := d; path := p; parent := c2 |})).
Proof.
  intros H. unfold context_issue, _processInputParams. cbn. rewrite H. reflexivity.
Qed.

(** Data that is not delegated is judged without a look at the mode. *)
Lemma JamfDBRef_parse_mode def sub d p c1 c2 w :
  instanceof_DBRef d = false ->
  d <> VNull ->
  delegates d = false ->
  issues (common c1) = issues (common c2) ->
  contextualErrorMap (common c1) = contextualErrorMap (common c2) ->
  JamfDBRef_parse def sub {| data := d; path := p; parent := c1 |} w
  = JamfDBRef_parse def sub {| data := d; path := p; parent := c2 |} w.
Proof.
  intros Hi Hn Hdel H1 H2.
  rewrite !JamfDBRef_parse_reject by assumption.
  cbn [data parent]. rewrite H1, (context_issue_mode _ def d p c1 c2 H2). reflexivity.
Qed.

Lemma JamfDBRef_parse_sync_result def sub input w :
  delegates (data input) = false ->
  (exists r w', JamfDBRef_parse def sub input w = (Ret (Sync r), w'))
  \/ (exists e, JamfDBRef_parse def sub input w = (Throw e, w)).
Proof.
  intros Hdel. destruct (data input) as [| |b|n|s|i|c o db|cn props] eqn:Hd.
  2: { right. rewrite JamfDBRef_parse_null by exact Hd. eauto. }
  6: { left. rewrite (JamfDBRef_parse_instance def sub input c o db) by exact Hd. eauto. }
  all: rewrite JamfDBRef_parse_reject
         by (rewrite ?Hd; try discriminate; try reflexivity; exact Hdel);
       destruct (getUnkownType (data input)); eauto.
Qed.

(** Synchronous mode, delegated data: the identifier step, then the
    continuation. *)
Lemma JamfDBRef_parse_delegated_sync def input cn props w :
  data input = VObject cn props ->
  delegates (data input) = true ->
  async (common (parent input)) = false ->
  JamfDBRef_parse def (objectid other tt) input w
  = match JamfObjectId_parse other plain_def
            {| data := lookup_prop "$id" props;
               path := path input ++ [Key "$id"];
               parent := parent input |} w with
    | (Ret (Sync r), w1) =>
        JamfDBRef_logic input (snd (_processInputParams def input)) r w1
    | (Ret (Async _), w1) => (Throw (Error "Synchronous parse encountered promise."), w1)
    | (Throw e, w1) => (Throw e, w1)
    end.
Proof.
  intros Hd Hdel Ha.
  rewrite (JamfDBRef_parse_delegate def _ input cn props w Hd Hdel).
  unfold handleNestedParsing. rewrite Ha. unfold _parseSync, bind.
  cbn [_parse objectid JamfObjectId_create concat].
  change {| typeName := ObjectID; def_errorMap := None |} with plain_def.
  destruct (JamfObjectId_parse other plain_def _ w) as [[[r|q]|e] w1]; reflexivity.
Qed.

(** Asynchronous mode, delegated data: the identifier step runs at once,
    the continuation waits in the promise. *)
Lemma JamfDBRef_parse_delegated_async def input cn props w :
  data input = VObject cn props ->
  delegates (data input) = true ->
  async (common (parent input)) = true ->
  JamfDBRef_parse def (objectid other tt) input w
  = match JamfObjectId_parse other plain_def
            {| data := lookup_prop "$id" props;
               path := path input ++ [Key "$id"];
               parent := parent input |} w with
    | (Ret x, w1) =>
        (Ret (Async (then_ (Promise_resolve x)
                       (JamfDBRef_logic input (snd (_processInputParams def input))))),
         w1)
    | (Throw e, w1) => (Throw e, w1)
    end.
Proof.
  intros Hd Hdel Ha.
  rewrite (JamfDBRef_parse_delegate def _ input cn props w Hd Hdel).
  unfold handleNestedParsing. rewrite Ha. unfold _parseAsync, bind.
  cbn [_parse objectid JamfObjectId_create concat].
  change {| typeName := ObjectID; def_errorMap := None |} with plain_def.
  destruct (JamfObjectId_parse other plain_def _ w) as [[x|e] w1]; reflexivity.
Qed.

Lemma Reference_steps_agree def d p cs ca w1 :
  issues (common cs) = issues (common ca) ->
  parseToBSON (common cs) = parseToBSON (common ca) ->
  contextualErrorMap (common cs) = contextualErrorMap (common ca) ->
  async (common ca) = true ->
  async (common cs) && delegates d = false ->
  _parseSync (JamfDBRef_new other def) {| data := d; path := p; parent := cs |} w1
  = (let* x := _parse (JamfDBRef_new other def)
                 {| data := d; path := p; parent := ca |} in
     await (Promise_resolve x)) w1.
Proof.
  intros H1 H2 H3 Ha Hdef.
  unfold _parseSync, bind.
  change (_parse (JamfDBRef_new other def))
    with (JamfDBRef_parse def (objectid other tt)).
  destruct (delegates d) eqn:Hdel.
  - (* delegated: the synchronous entry was left synchronous *)
    rewrite andb_true_r in Hdef.
    destruct d as [| |b|n|s|i|c o db|cn props]; try discriminate.
    rewrite (JamfDBRef_parse_delegated_sync def
               {| data := VObject cn props; path := p; parent := cs |} cn props)
      by (reflexivity || exact Hdel || exact Hdef).
    rewrite (JamfDBRef_parse_delegated_async def
               {| data := VObject cn props; path := p; parent := ca |} cn props)
      by (reflexivity || exact Hdel || exact Ha).
    cbn [parent path data].
    rewrite (JamfObjectId_parse_ext other plain_def _ _ cs ca w1 H1 H2 H3).
    destruct (JamfObjectId_parse_outcome other plain_def
                {| data := lookup_prop "$id" props;
                   path := p ++ [Key "$id"]; parent := ca |} w1)
      as [(r & w' & ->)|(e & -> & _)]; [|reflexivity].
    cbv [ret await Promise_resolve then_ bind].
    rewrite (JamfDBRef_logic_ext
               {| data := VObject cn props; path := p; parent := cs |}
               {| data := VObject cn props; path := p; parent := ca |}
               (snd (_processInputParams def {| data := VObject cn props; path := p; parent := cs |}))
               (snd (_processInputParams def {| data := VObject cn props; path := p; parent := ca |}))
               cn props r w')
      by (reflexivity || exact H1 || (intros g; apply context_issue_mode; exact H3)).
    destruct (JamfDBRef_logic_returns
                {| data := VObject cn props; path := p; parent := ca |}
                (snd (_processInputParams def {| data := VObject cn props; path := p; parent := ca |}))
                cn props r w' eq_refl) as (r' & w'' & ->).
    reflexivity.
  - (* not delegated: the step never looks at the mode *)
    assert (Hsame : JamfDBRef_parse def (objectid other tt)
                      {| data := d; path := p; parent := cs |} w1
                    = JamfDBRef_parse def (objectid other tt)
                      {| data := d; path := p; parent := ca |} w1).
    { destruct d as [| |b|n|s|i|c o db|cn props];
        try (apply JamfDBRef_parse_mode; [reflexivity|discriminate|exact Hdel|assumption..]).
      - rewrite !JamfDBRef_parse_null by reflexivity. reflexivity.
      - rewrite (JamfDBRef_parse_instance def _ {| data := _; path := p; parent := cs |} c o db)
          by reflexivity.
        rewrite (JamfDBRef_parse_instance def _ {| data := _; path := p; parent := ca |} c o db)
          by reflexivity.
        reflexivity. }
    rewrite Hsame.
    destruct (JamfDBRef_parse_sync_result def (objectid other tt)
                {| data := d; path := p; parent := ca |} w1 Hdel) as [(r & w' & ->)|(e & ->)];
      reflexivity.
Qed.

End EntryPoints.

(* ================================================================== *)
(** * Runs from different worlds *)
(* ================================================================== *)

Lemma custom_issue_made g ctx e :
  context_issue g ctx (custom_issue e)
  = {| issue_code := custom; issue_expected := None; issue_received := None;
       issue_path := ctx_path ctx ++ [];
       issue_message := default "unknown error" (exn_message e) |}.
Proof. reflexivity. Qed.

Lemma alike_new_array w1 w2 :
  global_errorMap w1 = global_errorMap w2 ->
  alike (next_array w1) (next_array w2) (snd (new_array w1)) (snd (new_array w2)).
Proof. intros H. split; [rewrite !read_new_array; reflexivity|exact H]. Qed.

Lemma alike_pushed a1 a2 i w1 w2 :
  alike a1 a2 w1 w2 -> alike a1 a2 (pushed a1 i w1) (pushed a2 i w2).
Proof. intros [H1 H2]. split; [rewrite !read_pushed, H1; reflexivity|exact H2]. Qed.

Lemma alike_logged a1 a2 c1 c2 w1 w2 :
  alike a1 a2 w1 w2 -> alike a1 a2 (logged c1 w1) (logged c2 w2).
Proof. intros [H1 H2]. split; assumption. Qed.

(** What the caller sees of a resolved result depends on the world
    through the issue array only. *)
Lemma handleResult_alike c1 c2 r w1 w2 :
  alike (issues (common c1)) (issues (common c2)) w1 w2 ->
  observe (handleResult c1 r w1) = observe (handleResult c2 r w2).
Proof.
  intros [H _]. unfold handleResult. rewrite H.
  destruct r; cbn; auto;
    destruct (length (read_issues (issues (common c2)) w2) =? 0)%nat; cbn;
    rewrite ?H; auto.
Qed.

Section Steady.
Variable other : Generator.

(** The identifier step, when the constructor is handed a string or
    nothing, answers the same in any two such worlds. *)
Lemma JamfObjectId_parse_alike def d p c1 c2 w1 w2 :
  parseToBSON (common c1) = parseToBSON (common c2) ->
  contextualErrorMap (common c1) = contextualErrorMap (common c2) ->
  alike (issues (common c1)) (issues (common c2)) w1 w2 ->
  generated d = false ->
  fst (JamfObjectId_parse other def {| data := d; path := p; parent := c1 |} w1)
  = fst (JamfObjectId_parse other def {| data := d; path := p; parent := c2 |} w2)
  /\ alike (issues (common c1)) (issues (common c2))
       (snd (JamfObjectId_parse other def {| data := d; path := p; parent := c1 |} w1))
       (snd (JamfObjectId_parse other def {| data := d; path := p; parent := c2 |} w2)).
Proof.
  intros H2 H3 Hw Hg.
  destruct (instanceof_ObjectId d) eqn:Hi.
  - destruct d; try discriminate.
    rewrite !(JamfObjectId_parse_instance other def _ id) by reflexivity.
    cbn [parent fst snd]. rewrite H2.
    destruct (default false _); split; auto using alike_logged.
  - destruct (candidate d) as [val|] eqn:Hc.
    + rewrite !(JamfObjectId_parse_candidate other def _ val) by assumption.
      unfold generated in Hg. rewrite Hc in Hg.
      destruct val as [| |b|n|s|i|c o db|cn props]; try discriminate Hg.
      cbn [ObjectId_new parent]. rewrite H2.
      destruct (ObjectId_of_string s) as [e|i]; cbn [fst snd].
      * split; [reflexivity|]. rewrite !custom_issue_made.
        cbn [_processInputParams snd ctx_path path].
        apply alike_pushed, alike_logged, Hw.
      * split; [reflexivity|]. apply alike_logged, Hw.
    + rewrite !(JamfObjectId_parse_reject other def _) by assumption.
      cbn [data parent]. destruct (getUnkownType d) as [r|e]; cbn [fst snd].
      * split; [reflexivity|].
        rewrite (context_issue_mode _ def d p c1 c2 H3), (proj2 Hw).
        apply alike_pushed, Hw.
      * split; [reflexivity|exact Hw].
Qed.

(** So does the reference step, when it has no promise to make. *)
Lemma JamfDBRef_parse_alike def d p c1 c2 w1 w2 :
  parseToBSON (common c1) = parseToBSON (common c2) ->
  contextualErrorMap (common c1) = contextualErrorMap (common c2) ->
  async (common c1) = async (common c2) ->
  alike (issues (common c1)) (issues (common c2)) w1 w2 ->
  async (common c1) && delegates d = false ->
  delegates d && generated (nested_id d) = false ->
  fst (JamfDBRef_parse def (objectid other tt) {| data := d; path := p; parent := c1 |} w1)
  = fst (JamfDBRef_parse def (objectid other tt) {| data := d; path := p; parent := c2 |} w2)
  /\ alike (issues (common c1)) (issues (common c2))
       (snd (JamfDBRef_parse def (objectid other tt)
               {| data := d; path := p; parent := c1 |} w1))
       (snd (JamfDBRef_parse def (objectid other tt)
               {| data := d; path := p; parent := c2 |} w2)).
Proof.
  intros H2 H3 Ha Hw Hmode Hg.
  destruct (delegates d) eqn:Hdel.
  - rewrite andb_true_r in Hmode. rewrite andb_true_l in Hg.
    destruct d as [| |b|n|s|i|c o db|cn props]; try discriminate.
    cbn [nested_id] in Hg.
    rewrite (JamfDBRef_parse_delegated_sync other def
               {| data := VObject cn props; path := p; parent := c1 |} cn props)
      by (reflexivity || exact Hdel || exact Hmode).
    rewrite (JamfDBRef_parse_delegated_sync other def
               {| data := VObject cn props; path := p; parent := c2 |} cn props)
      by (reflexivity || exact Hdel || (cbn [parent]; rewrite <- Ha; exact Hmode)).
    cbn [parent path data].
    destruct (JamfObjectId_parse_alike plain_def (lookup_prop "$id" props)
                (p ++ [Key "$id"]) c1 c2 w1 w2 H2 H3 Hw Hg) as [Hf Hs].
    destruct (JamfObjectId_parse other plain_def
                {| data := lookup_prop "$id" props; path := p ++ [Key "$id"];
                   parent := c1 |} w1) as [o1 v1].
    destruct (JamfObjectId_parse other plain_def
                {| data := lookup_prop "$id" props; path := p ++ [Key "$id"];
                   parent := c2 |} w2) as [o2 v2].
    cbn [fst snd] in Hf, Hs. subst o2.
    destruct o1 as [[r|q]|e]; [|split; [reflexivity|exact Hs]..].
    rewrite !(JamfDBRef_logic_cases _ _ cn props) by reflexivity.
    destruct r as [v|v|]; [|split; [reflexivity|exact Hs]..].
    destruct (DBRef_new _ _ _) as [e|x]; cbn [fst snd].
    + split; [reflexivity|]. rewrite !custom_issue_made.
      cbn [_processInputParams snd ctx_path path common parent].
      apply alike_pushed, alike_logged, Hs.
    + split; [reflexivity|]. apply alike_logged, Hs.
  - destruct d as [| |b|n|s|i|c o db|cn props].
    2: { rewrite !JamfDBRef_parse_null by reflexivity. split; [reflexivity|exact Hw]. }
    6: { rewrite !(JamfDBRef_parse_instance def _ _ c o db) by reflexivity.
         split; [reflexivity|exact Hw]. }
    all: rewrite !JamfDBRef_parse_reject
           by (try discriminate; try reflexivity; exact Hdel);
         cbn [data parent];
         match goal with |- context [getUnkownType ?d] =>
           destruct (getUnkownType d) as [r|e] end; cbn [fst snd];
         (split; [reflexivity|]);
         [rewrite (context_issue_mode _ def _ p c1 c2 H3), (proj2 Hw);
          apply alike_pushed, Hw
         |exact Hw].
Qed.

(** [safeParse] shows the same in any two worlds with the same global
    error map, as long as the run neither meets a promise nor hands the
    constructor anything but a string. *)
Lemma safeParse_steady v d params w1 w2 :
  global_errorMap w1 = global_errorMap w2 ->
  defers v params d = false ->
  generates v d = false ->
  observe (safeParse (schema_of other v) d params w1)
  = observe (safeParse (schema_of other v) d params w2).
Proof.
  intros Hm Hdef Hg. rewrite !safeParse_run. cbv zeta.
  unfold _parseSync, bind.
  pose proof (alike_new_array w1 w2 Hm) as Hw.
  destruct v as [def|def]; cbn [schema_of defers generates] in *.
  - change (_parse (JamfObjectId_new other def)) with (JamfObjectId_parse other def).
    destruct (JamfObjectId_parse_alike def d (default [] (params ≫= p_path))
                (safeParse_ctx (JamfObjectId_new other def) d params (next_array w1))
                (safeParse_ctx (JamfObjectId_new other def) d params (next_array w2))
                (snd (new_array w1)) (snd (new_array w2))
                eq_refl eq_refl Hw Hg) as [Hf Hs].
    destruct (JamfObjectId_parse other def _ (snd (new_array w1))) as [o1 v1].
    destruct (JamfObjectId_parse other def _ (snd (new_array w2))) as [o2 v2].
    cbn [fst snd] in Hf, Hs. subst o2.
    destruct o1 as [[r|q]|e]; try reflexivity.
    apply handleResult_alike, Hs.
  - change (_parse (JamfDBRef_new other def))
      with (JamfDBRef_parse def (objectid other tt)).
    destruct (JamfDBRef_parse_alike def d (default [] (params ≫= p_path))
                (safeParse_ctx (JamfDBRef_new other def) d params (next_array w1))
                (safeParse_ctx (JamfDBRef_new other def) d params (next_array w2))
                (snd (new_array w1)) (snd (new_array w2))
                eq_refl eq_refl eq_refl Hw Hdef Hg) as [Hf Hs].
    destruct (JamfDBRef_parse def _ _ (snd (new_array w1))) as [o1 v1].
    destruct (JamfDBRef_parse def _ _ (snd (new_array w2))) as [o2 v2].
    cbn [fst snd] in Hf, Hs. subst o2.
    destruct o1 as [[r|q]|e]; try reflexivity.
    apply handleResult_alike, Hs.
Qed.

End Steady.

(* ================================================================== *)
(** * The entry points compared *)
(* ================================================================== *)

(** [safeParse] told to be asynchronous raises on data the reference
    validator delegates: it meets the promise, unless the identifier
    validator raised before. *)
Lemma safeParse_deferred_raises other def d params w :
  defers (Reference def) params d = true ->
  exists e,
    observe (safeParse (JamfDBRef_new other def) d params w) = Throw e
    /\ ((forall e', getUnkownType (nested_id d) <> Throw e') ->
        e = Error "Synchronous parse encountered promise.").
Proof.
  cbn [defers]. intros H. apply andb_true_iff in H as [Ha Hdel].
  destruct d as [| |b|n|s|i|c o db|cn props]; try discriminate.
  rewrite safeParse_run. cbv zeta. unfold _parseSync, bind.
  change (_parse (JamfDBRef_new other def))
    with (JamfDBRef_parse def (objectid other tt)).
  rewrite (JamfDBRef_parse_delegated_async other def _ cn props)
    by (reflexivity || exact Hdel || exact Ha).
  cbn [parent path data nested_id].
  match goal with |- context [JamfObjectId_parse other ?df ?i ?w1] =>
    destruct (JamfObjectId_parse_outcome other df i w1)
      as [(r & w' & ->)|(e & -> & _ & _ & He)] end.
  - eexists. split; reflexivity.
  - exists e. split; [reflexivity|]. intros H. destruct (H e He).
Qed.

(** C1, as amended.  [safeParse] and the awaited [safeParseAsync] show
    the caller the same thing (the same data, the same issues, or the same
    raised error) in any two states of the program with the same global
    error map, for the identifier validator and for the reference
    validator, with two exceptions.  The reference validator's
    [safeParse] raises when the caller set [async] and the data is
    delegated to the identifier validator.  And when the identifier
    constructor is handed a truthy [$oid] that is not a string, the
    library may generate an identifier, another one at each call. *)
Theorem safeParse_safeParseAsync_agree
    (other : Generator) (v : Validator) (d : value)
    (params : option JamfParseParams) (w1 w2 : world) :
  global_errorMap w1 = global_errorMap w2 ->
  defers v params d = false ->
  generates v d = false ->
  observe (safeParse (schema_of other v) d params w1)
  = observe (safeParseAsync_awaited (schema_of other v) d params w2).
Proof.
  intros Hm Hdef Hg.
  rewrite (safeParse_steady other v d params w1 w2 Hm Hdef Hg).
  apply entry_points_agree. intros a w.
  destruct v as [def|def]; cbn [schema_of].
  - apply Identifier_steps_agree; reflexivity.
  - apply Reference_steps_agree; try reflexivity. exact Hdef.
Qed.

Lemma safeParse_safeParseAsync_agree_witness :
  observe (safeParse (schema_of bson_counts (Reference plain_def))
             (reference_object (VString "users") (VString sample_hex)) None initial)
  = observe (safeParseAsync_awaited (schema_of bson_counts (Reference plain_def))
               (reference_object (VString "users") (VString sample_hex)) None
               (snd (safeParse (schema_of bson_counts (Reference plain_def))
                       (reference_object (VString "users") (VString sample_hex))
                       None initial))).
Proof.
  apply (safeParse_safeParseAsync_agree bson_counts (Reference plain_def)
           (reference_object (VString "users") (VString sample_hex)) None initial);
    reflexivity.
Defined.

(** C1, as stated, fails: with [{ async: true }] the reference validator's
    [safeParse] raises on [{ $ref: "users", $id: <24 hex digits> }] while
    [safeParseAsync] succeeds. *)
Lemma safeParse_safeParseAsync_differ :
  observe (safeParse (schema_of bson_rejects (Reference plain_def))
             (reference_object (VString "users") (VString sample_hex))
             (only_async true) initial)
  <> observe (safeParseAsync_awaited (schema_of bson_rejects (Reference plain_def))
                (reference_object (VString "users") (VString sample_hex))
                (only_async true) initial).
Proof. vm_compute. discriminate. Qed.

Example safeParse_async_true :
  observe (safeParse (JamfDBRef_new bson_rejects plain_def)
             (reference_object (VString "users") (VString sample_hex))
             (only_async true) initial)
  = Throw (Error "Synchronous parse encountered promise.").
Proof. reflexivity. Qed.

Example safeParseAsync_async_true :
  observe (safeParseAsync_awaited (JamfDBRef_new bson_rejects plain_def)
             (reference_object (VString "users") (VString sample_hex))
             (only_async true) initial)
  = Ret (Succeeded (VDBRef "users" (VString sample_hex) VUndefined)).
Proof. reflexivity. Qed.

(** With a library that generates, [{ $oid: 5 }] validates to one
    identifier and, asked again, to another. *)
Example generated_identifiers_differ :
  let d := VObject "Object" [("$oid", VNumber 5)] in
  let first := safeParse (JamfObjectId_new bson_counts plain_def) d None initial in
  observe first
  <> observe (safeParseAsync_awaited (JamfObjectId_new bson_counts plain_def) d None
                (snd first)).
Proof. vm_compute. discriminate. Qed.

(* ================================================================== *)
(** * What the parse steps raise *)
(* ================================================================== *)

(** C2 fails on [null] for the reference validator: [typeof null] is
    ["object"], so [_parse] reads [null.$ref] and raises a [TypeError];
    both entry points pass it on, no issue is recorded. *)
Theorem JamfDBRef_null_raises
    (other : Generator) (def : Def)
    (params : option JamfParseParams) (p : Path) (ctx : ParseContext) (w : world) :
  let e := TypeError "Cannot read properties of null (reading '$ref')" in
  JamfDBRef_parse def (objectid other tt)
    {| data := VNull; path := p; parent := ctx |} w = (Throw e, w)
  /\ observe (safeParse (JamfDBRef_new other def) VNull params w) = Throw e
  /\ observe (safeParseAsync_awaited (JamfDBRef_new other def) VNull params w) = Throw e.
Proof.
  intros e. split; [reflexivity|]. split.
  - rewrite safeParse_run. reflexivity.
  - rewrite safeParseAsync_awaited_run. reflexivity.
Qed.

(** The identifier validator, for comparison, reports [null] as an
    [invalid_type] issue that names it. *)
Lemma JamfObjectId_null_reported other def params w :
  exists i, observe (safeParse (JamfObjectId_new other def) VNull params w) = Ret (Failed [i])
            /\ issue_code i = invalid_type /\ issue_received i = Some (VString "null").
Proof.
  rewrite safeParse_run. cbv zeta. unfold _parseSync, bind.
  change (_parse (JamfObjectId_new other def)) with (JamfObjectId_parse other def).
  rewrite JamfObjectId_parse_reject by reflexivity.
  cbn [data getUnkownType typeof String.eqb Ascii.eqb Bool.eqb truthy].
  cbv beta iota delta [ret].
  cbn [parent safeParse_ctx common issues].
  eexists. split.
  - erewrite handleResult_issues;
      [|reflexivity|rewrite read_pushed, read_new_array; reflexivity].
    cbn [observe common issues]. rewrite read_pushed, read_new_array. reflexivity.
  - split; reflexivity.
Qed.

(* ================================================================== *)
(** * The factories *)
(* ================================================================== *)

(** C3.  [JamfDBRef.create] (exported as [dbref]) builds what
    [JamfObjectId.create] builds: an instance of [JamfObjectId] whose
    definition record has [typeName] [ObjectID], and not an instance of
    [JamfDBRef]. *)
Theorem dbref_creates_JamfObjectId (other : Generator) :
  dbref other tt = objectid other tt
  /\ class_name (dbref other tt) = "JamfObjectId"
  /\ typeName (_def (dbref other tt)) = ObjectID
  /\ _parse (dbref other tt) = JamfObjectId_parse other (_def (dbref other tt))
  /\ forall def, dbref other tt <> JamfDBRef_new other def.
Proof.
  repeat split. intros def H.
  apply (f_equal class_name) in H. discriminate H.
Qed.

(** So [dbref()] turns a reference object away, as an identifier it is not. *)
Example dbref_rejects_reference :
  observe (safeParse (dbref bson_rejects tt)
             (reference_object (VString "users") (VString sample_hex)) None initial)
  = Ret (Failed [ {| issue_code := invalid_type;
                     issue_expected := Some "ObjectId | string";
                     issue_received := Some (VString "Object");
                     issue_path := [];
                     issue_message := "Expected ObjectId | string, received Object" |} ]).
Proof. reflexivity. Qed.

(* ================================================================== *)
(** * The mode of the context *)
(* ================================================================== *)

(** C4, as amended.  [safeParse] takes the [async] flag of its context
    from the caller's parameters, [false] when there is none;
    [safeParseAsync] sets it to [true] whatever the caller says.  A
    validator run by [safeParse] sees exactly that flag. *)
Theorem safeParse_ctx_async
    (schema : ZodType) (d : value) (params : option JamfParseParams)
    (a : nat) (w : world) :
  async (common (safeParse_ctx schema d params a)) = default false (params ≫= p_async)
  /\ async (common (safeParseAsync_ctx schema d params a)) = true
  /\ observe (safeParse mode_probe d params w)
     = Ret (Succeeded (VBool (default false (params ≫= p_async)))).
Proof. repeat split. Qed.

(** C4, as stated, fails: the caller's [{ async: true }] reaches the
    context of [safeParse]. *)
Lemma safeParse_ctx_async_true :
  async (common (safeParse_ctx (objectid bson_rejects tt) (VString sample_hex)
                   (only_async true) 0)) <> false.
Proof. discriminate. Qed.

(* ================================================================== *)
(** * Result resolution *)
(* ================================================================== *)

Lemma ZodError_issues_new a w :
  ZodError_issues (length (zod_errors w)) (snd (new_ZodError a w)) = read_issues a w.
Proof.
  unfold ZodError_issues, new_ZodError. cbn [snd zod_errors].
  rewrite list_lookup_middle by reflexivity. reflexivity.
Qed.

(** C5.  [handleResult] wraps the value of a valid result; on a result
    that is not valid it raises when the context has no issue, and
    otherwise returns a failure without building anything.  The first read
    of [error] then builds one [ZodError] from all the issues of the
    context and keeps it; the next read returns that same object. *)
Theorem handleResult_resolution
    (ctx : ParseContext) (result : SyncParseReturnType) (w : world) :
  (forall v, result = VALID v ->
     handleResult ctx result w = (Ret (SafeParseSuccess v), w))
  /\ (isValid result = false ->
      read_issues (issues (common ctx)) w = [] ->
      handleResult ctx result w
      = (Throw (Error "Validation failed but no issues detected."), w))
  /\ (isValid result = false ->
      read_issues (issues (common ctx)) w <> [] ->
      exists r,
        handleResult ctx result w = (Ret r, w)
        /\ success r = false
        /\ forall w1,
             let e := length (zod_errors w1) in
             exists r' w2,
               get_error r w1 = (Ret (r', Some e), w2)
               /\ ZodError_issues e w2 = read_issues (issues (common ctx)) w1
               /\ get_error r' w2 = (Ret (r', Some e), w2)).
Proof.
  split; [|split].
  - intros v ->. reflexivity.
  - intros Hr Hi. unfold handleResult. rewrite Hi.
    destruct result; [discriminate|reflexivity..].
  - intros Hr Hi.
    destruct (read_issues (issues (common ctx)) w) as [|i l] eqn:Hl; [congruence|].
    exists (SafeParseError ctx None).
    split; [exact (handleResult_issues ctx result w i l Hr Hl)|].
    split; [reflexivity|].
    intros w1 e. exists (SafeParseError ctx (Some e)), (snd (new_ZodError (issues (common ctx)) w1)).
    split; [reflexivity|]. split; [apply ZodError_issues_new|reflexivity].
Qed.

Lemma handleResult_resolution_witness :
  handleResult (safeParse_ctx mode_probe VNull None 0) (VALID VNull) initial
  = (Ret (SafeParseSuccess VNull), initial)
  /\ handleResult (safeParse_ctx mode_probe VNull None 0) INVALID initial
     = (Throw (Error "Validation failed but no issues detected."), initial)
  /\ exists r,
       handleResult (safeParse_ctx mode_probe VNull None 0) INVALID
         (pushed 0 sample_issue initial)
       = (Ret r, pushed 0 sample_issue initial)
       /\ success r = false
       /\ forall w1,
            let e := length (zod_errors w1) in
            exists r' w2,
              get_error r w1 = (Ret (r', Some e), w2)
              /\ ZodError_issues e w2 = read_issues 0 w1
              /\ get_error r' w2 = (Ret (r', Some e), w2).
Proof.
  split; [|split].
  - apply (proj1 (handleResult_resolution
                    (safeParse_ctx mode_probe VNull None 0) (VALID VNull) initial)).
    reflexivity.
  - apply (proj1 (proj2 (handleResult_resolution
                           (safeParse_ctx mode_probe VNull None 0) INVALID initial)));
      reflexivity.
  - apply (proj2 (proj2 (handleResult_resolution
                           (safeParse_ctx mode_probe VNull None 0) INVALID
                           (pushed 0 sample_issue initial)))).
    + reflexivity.
    + vm_compute. discriminate.
Defined.

(* ================================================================== *)
(** * Nested composition *)
(* ================================================================== *)

Lemma context_issue_path g ctx i : issue_path (context_issue g ctx i) = ctx_path ctx.
Proof.
  unfold context_issue, makeIssue. destruct (message i); cbn [issue_path]; apply app_nil_r.
Qed.

Lemma context_issue_code g ctx i : issue_code (context_issue g ctx i) = code i.
Proof. unfold context_issue, makeIssue. destruct (message i); reflexivity. Qed.

Lemma context_issue_received g ctx i : issue_received (context_issue g ctx i) = received i.
Proof. unfold context_issue, makeIssue. destruct (message i); reflexivity. Qed.

Lemma context_issue_expected g ctx i : issue_expected (context_issue g ctx i) = expected i.
Proof. unfold context_issue, makeIssue. destruct (message i); reflexivity. Qed.



Example handleNestedParsing_one_segment :
  handleNestedParsing (JamfObjectId_new bson_rejects plain_def) (Segment (Key "$id"))
    {| data := VNull; path := [Key "owner"];
       parent := safeParse_ctx mode_probe VNull None 0 |}
    (VNumber 42) (fun r => ret (Sync r)) initial
  = (Ret (Sync INVALID),
     pushed 0
       {| issue_code := invalid_type; issue_expected := Some "ObjectId | string";
          issue_received := Some (VString "number");
          issue_path := [Key "owner"; Key "$id"];
          issue_message := "Expected ObjectId | string, received number" |}
       initial).
Proof. reflexivity. Qed.

(* ================================================================== *)
(** * The identifier validator on its accepted forms *)
(* ================================================================== *)

Lemma safeParse_identifier_candidate other def d val i params w :
  instanceof_ObjectId d = false ->
  candidate d = Some val ->
  ObjectId_new other (calls w) val = inr i ->
  safeParse (JamfObjectId_new other def) d params w
  = (Ret (SafeParseSuccess
            (if default false (params ≫= p_parseToBSON)
             then VObjectId i else VString (toHexString i))),
     logged (NewObjectId val) (snd (new_array w))).
Proof.
  intros Hi Hc Hn. rewrite safeParse_run. cbv zeta. unfold _parseSync, bind.
  change (_parse (JamfObjectId_new other def)) with (JamfObjectId_parse other def).
  rewrite (JamfObjectId_parse_candidate other def _ val) by assumption.
  cbn [new_array snd calls]. rewrite Hn. reflexivity.
Qed.

Lemma safeParse_identifier_instance other def i params w :
  safeParse (JamfObjectId_new other def) (VObjectId i) params w
  = (Ret (SafeParseSuccess (VObjectId i)),
     if default false (params ≫= p_parseToBSON) then snd (new_array w)
     else logged (NewObjectId (VString (toHexString i))) (snd (new_array w))).
Proof.
  rewrite safeParse_run. cbv zeta. unfold _parseSync, bind.
  change (_parse (JamfObjectId_new other def)) with (JamfObjectId_parse other def).
  rewrite (JamfObjectId_parse_instance other def _ i) by reflexivity.
  reflexivity.
Qed.

Lemma Identifier_entry_points_agree other def d params w :
  observe (safeParseAsync_awaited (JamfObjectId_new other def) d params w)
  = observe (safeParse (JamfObjectId_new other def) d params w).
Proof.
  symmetry. apply entry_points_agree. intros a w1.
  apply Identifier_steps_agree; reflexivity.
Qed.

(** C7, as amended.  A string of 24 hex digits validates, through either
    entry point: without [parseToBSON] to its lower-case form, which is the
    string itself when it has no upper-case digit; with [parseToBSON] to a
    native identifier whose canonical hex form is that lower-case form. *)
Theorem hex_string_round_trip
    (other : Generator) (def : Def) (s : string)
    (params : option JamfParseParams) (w : world) :
  is_hex24 s = true ->
  let result := observe (safeParse (JamfObjectId_new other def) (VString s) params w) in
  observe (safeParseAsync_awaited (JamfObjectId_new other def) (VString s) params w) = result
  /\ (default false (params ≫= p_parseToBSON) = false ->
      result = Ret (Succeeded (VString (toLowerCase s)))
      /\ (toLowerCase s = s -> result = Ret (Succeeded (VString s))))
  /\ (default false (params ≫= p_parseToBSON) = true ->
      exists i, result = Ret (Succeeded (VObjectId i))
                /\ toHexString i = toLowerCase s).
Proof.
  intros Hs result. split; [apply Identifier_entry_points_agree|].
  destruct (ObjectId_of_string_hex24 s Hs) as (i & Hi & Hlow).
  subst result.
  rewrite (safeParse_identifier_candidate other def (VString s) (VString s) i)
    by (reflexivity || exact Hi).
  split; intros ->; cbn [observe].
  - rewrite Hlow. split; [reflexivity|]. intros ->. reflexivity.
  - exists i. split; [reflexivity|exact Hlow].
Qed.

Lemma hex_string_round_trip_witness :
  observe (safeParse (JamfObjectId_new bson_rejects plain_def) (VString sample_HEX)
             (only_parseToBSON false) initial)
  = Ret (Succeeded (VString (toLowerCase sample_HEX))).
Proof.
  apply (proj2 (hex_string_round_trip bson_rejects plain_def sample_HEX
                  (only_parseToBSON false) initial eq_refl)).
  reflexivity.
Defined.

(** C7, as stated, fails on an upper-case encoding: the data is the
    canonical form, not the string given. *)
Lemma hex_string_not_returned :
  is_hex24 sample_HEX = true
  /\ observe (safeParse (objectid bson_rejects tt) (VString sample_HEX)
                (only_parseToBSON false) initial)
     <> Ret (Succeeded (VString sample_HEX)).
Proof. split; [reflexivity|]. vm_compute. discriminate. Qed.

Example hex_string_canonical :
  observe (safeParse (objectid bson_rejects tt) (VString sample_HEX)
             (only_parseToBSON false) initial)
  = Ret (Succeeded (VString sample_hex)).
Proof. reflexivity. Qed.

(** C8, as amended.  A native identifier validates to a native
    identifier equal to it, whatever [parseToBSON] says: with the flag the
    instance itself, no constructor being called; without it an instance
    built anew from the canonical hex form. *)
Theorem native_identifier_returned
    (other : Generator) (def : Def) (i : ObjectId)
    (params : option JamfParseParams) (w : world) :
  let x := safeParse (JamfObjectId_new other def) (VObjectId i) params w in
  observe x = Ret (Succeeded (VObjectId i))
  /\ calls (snd x)
     = calls w ++ (if default false (params ≫= p_parseToBSON) then []
                   else [NewObjectId (VString (toHexString i))])
  /\ ObjectId_of_string (toHexString i) = inr i.
Proof.
  intros x. subst x. rewrite safeParse_identifier_instance.
  split; [reflexivity|]. split; [|apply ObjectId_of_string_toHexString].
  cbn [snd]. destruct (default false _); cbn [calls logged new_array snd].
  - symmetry. apply app_nil_r.
  - reflexivity.
Qed.

(** C8, as stated, fails without [parseToBSON]: the data is a native
    identifier, not the hex string. *)
Lemma native_identifier_not_hex :
  observe (safeParse (objectid bson_rejects tt) (VObjectId sample_id)
             (only_parseToBSON false) initial)
  <> Ret (Succeeded (VString (toHexString sample_id))).
Proof. vm_compute. discriminate. Qed.

(* ================================================================== *)
(** * The reference validator *)
(* ================================================================== *)

Ltac read_store :=
  cbn [common issues safeParse_ctx safeParseAsync_ctx];
  rewrite ?read_pushed, ?read_logged, ?read_new_array.

(** The identifier validator, as sub-validator, on a string the
    constructor refuses. *)
Lemma bad_identifier_step other def p ctx w :
  exists i,
    JamfObjectId_parse other def {| data := VString "bad"; path := p; parent := ctx |} w
    = (Ret (Sync INVALID),
       pushed (issues (common ctx)) i (logged (NewObjectId (VString "bad")) w))
    /\ issue_code i = custom /\ issue_path i = p.
Proof.
  rewrite (JamfObjectId_parse_candidate other def _ (VString "bad")) by reflexivity.
  cbn [ObjectId_new]. change (ObjectId_of_string "bad")
    with (@inl exn ObjectId (BSONError
      "input must be a 24 character hex string, 12 byte Uint8Array, or an integer")).
  eexists. split; [reflexivity|]. split; [reflexivity|apply context_issue_path].
Qed.

(** C9.  On [{ $ref: "users", $id: "bad" }] the reference validator
    fails with one issue, the [custom] issue of the identifier validator,
    at the caller's path followed by ["$id"]; the only [bson] constructor
    entered is that of the identifier, none of a reference.  This holds
    for [safeParseAsync] and, the caller not having set [async], for
    [safeParse]. *)
Theorem composite_propagation
    (other : Generator) (def : Def)
    (params : option JamfParseParams) (w : world) :
  let d := reference_object (VString "users") (VString "bad") in
  let schema := JamfDBRef_new other def in
  let seen (x : outcome SafeParseReturnType * world) :=
    exists i,
      observe x = Ret (Failed [i])
      /\ issue_code i = custom
      /\ issue_path i = default [] (params ≫= p_path) ++ [Key "$id"]
      /\ calls (snd x) = calls w ++ [NewObjectId (VString "bad")] in
  seen (safeParseAsync_awaited schema d params w)
  /\ (default false (params ≫= p_async) = false -> seen (safeParse schema d params w)).
Proof.
  intros d schema seen.
  assert (Hseen : forall x,
    (exists i ctx,
       x = (Ret (SafeParseError ctx None),
            pushed (next_array w) i
              (logged (NewObjectId (VString "bad")) (snd (new_array w))))
       /\ issues (common ctx) = next_array w
       /\ issue_code i = custom
       /\ issue_path i = default [] (params ≫= p_path) ++ [Key "$id"]) ->
    seen x).
  { intros x (i & ctx & -> & Ha & Hc & Hp). exists i.
    cbn [observe snd]. rewrite Ha, read_pushed, read_logged, read_new_array.
    repeat split; assumption || reflexivity. }
  subst d schema. split; [|intros Ha]; apply Hseen; clear Hseen seen.
  - rewrite safeParseAsync_awaited_run. cbv zeta. unfold bind.
    change (_parse (JamfDBRef_new other def))
      with (JamfDBRef_parse def (objectid other tt)).
    rewrite (JamfDBRef_parse_delegate def _ _ "Object"
               [("$ref", VString "users"); ("$id", VString "bad")])
      by reflexivity.
    unfold handleNestedParsing.
    cbn [parent path data safeParseAsync_ctx common async lookup_prop String.eqb
         Ascii.eqb Bool.eqb concat ctx_path].
    unfold _parseAsync, bind. cbn [_parse objectid JamfObjectId_create].
    match goal with |- context [JamfObjectId_parse other ?df (Build_ParseInput _ ?p ?c) ?w1] =>
      destruct (bad_identifier_step other df p c w1) as (i & -> & Hc & Hp) end.
    exists i.
    cbv [ret await Promise_resolve then_ bind JamfDBRef_logic].
    erewrite handleResult_issues; [|reflexivity|read_store; reflexivity].
    eexists. repeat split; assumption || reflexivity.
  - rewrite safeParse_run. cbv zeta. unfold _parseSync at 1. unfold bind.
    change (_parse (JamfDBRef_new other def))
      with (JamfDBRef_parse def (objectid other tt)).
    rewrite (JamfDBRef_parse_delegate def _ _ "Object"
               [("$ref", VString "users"); ("$id", VString "bad")])
      by reflexivity.
    unfold handleNestedParsing.
    cbn [parent path data safeParse_ctx common async lookup_prop String.eqb
         Ascii.eqb Bool.eqb concat ctx_path].
    rewrite Ha.
    unfold _parseSync, bind. cbn [_parse objectid JamfObjectId_create].
    match goal with |- context [JamfObjectId_parse other ?df (Build_ParseInput _ ?p ?c) ?w1] =>
      destruct (bad_identifier_step other df p c w1) as (i & -> & Hc & Hp) end.
    exists i.
    cbv [ret JamfDBRef_logic].
    erewrite handleResult_issues; [|reflexivity|read_store; reflexivity].
    eexists. repeat split; assumption || reflexivity.
Qed.

Lemma composite_propagation_witness :
  exists i,
    observe (safeParse (JamfDBRef_new bson_rejects plain_def)
               (reference_object (VString "users") (VString "bad")) None initial)
    = Ret (Failed [i])
    /\ issue_code i = custom
    /\ issue_path i = [Key "$id"]
    /\ calls (snd (safeParse (JamfDBRef_new bson_rejects plain_def)
                     (reference_object (VString "users") (VString "bad")) None initial))
       = [NewObjectId (VString "bad")].
Proof.
  apply (proj2 (composite_propagation bson_rejects plain_def None initial)).
  reflexivity.
Defined.

(** C10.  An object, other than a native reference, whose [$ref] or
    [$id] is not truthy (absent, or present and falsy) is not delegated:
    whatever the sub-validator is, it is not run and no constructor is
    entered.  When [getUnkownType] names the type of the object (it names
    the class of every object that does not shadow its constructor), the
    object gets one [invalid_type] issue, expecting [DBRef] and naming that
    type, at the validator's own path, and an invalid result.  But
    [getUnkownType] reads [data.constructor.name] unguarded: on
    [{ $ref: "", $id: "507f...", constructor: null }] it raises a
    [TypeError], which leaves [_parse] and both entry points before any
    issue is appended. *)
Theorem JamfDBRef_falsy_field
    (def : Def) (sub : ZodType) (input : ParseInput)
    (cname : string) (props : list (string * value)) (w : world) :
  data input = VObject cname props ->
  truthy (lookup_prop "$ref" props) && truthy (lookup_prop "$id" props) = false ->
  (forall r, getUnkownType (data input) = Ret (VString r) ->
     exists i,
       JamfDBRef_parse def sub input w
       = (Ret (Sync INVALID), pushed (issues (common (parent input))) i w)
       /\ issue_code i = invalid_type
       /\ issue_expected i = Some "DBRef"
       /\ issue_received i = Some (VString r)
       /\ issue_path i = path input
       /\ calls (snd (JamfDBRef_parse def sub input w)) = calls w)
  /\ (own_prop "constructor" props = None ->
      getUnkownType (data input) = Ret (VString cname))
  /\ (forall e, getUnkownType (data input) = Throw e ->
      JamfDBRef_parse def sub input w = (Throw e, w))
  /\ (forall other params w0,
        let e := TypeError "Cannot read properties of null (reading 'name')" in
        getUnkownType nameless_reference = Throw e
        /\ observe (safeParse (JamfDBRef_new other def) nameless_reference params w0)
           = Throw e
        /\ observe (safeParseAsync_awaited (JamfDBRef_new other def) nameless_reference
                      params w0) = Throw e).
Proof.
  intros Hd Hf.
  assert (Hp : JamfDBRef_parse def sub input w
               = match getUnkownType (data input) with
                 | Ret r =>
                     (Ret (Sync INVALID),
                      pushed (issues (common (parent input)))
                        (context_issue (global_errorMap w)
                           (snd (_processInputParams def input))
                           (invalid_type_issue "DBRef" r)) w)
                 | Throw e => (Throw e, w)
                 end).
  { apply JamfDBRef_parse_reject; rewrite Hd; [reflexivity|discriminate|exact Hf]. }
  split; [|split; [|split]].
  - intros r Hr. rewrite Hp, Hr.
    eexists. split; [reflexivity|].
    rewrite context_issue_code, context_issue_expected, context_issue_received,
      context_issue_path.
    repeat split.
  - intros Hc. rewrite Hd. apply getUnkownType_class, Hc.
  - intros e He. rewrite Hp, He. reflexivity.
  - intros other params w0 e. split; [reflexivity|]. split.
    + rewrite safeParse_run. reflexivity.
    + rewrite safeParseAsync_awaited_run. reflexivity.
Qed.

Lemma JamfDBRef_falsy_field_witness :
  (exists i,
     JamfDBRef_parse plain_def (objectid bson_rejects tt)
       {| data := reference_object (VString "") (VString sample_hex); path := [];
          parent := safeParse_ctx mode_probe VNull None 0 |} initial
     = (Ret (Sync INVALID), pushed 0 i initial)
     /\ issue_code i = invalid_type
     /\ issue_expected i = Some "DBRef"
     /\ issue_received i = Some (VString "Object")
     /\ issue_path i = []
     /\ calls (snd (JamfDBRef_parse plain_def (objectid bson_rejects tt)
                      {| data := reference_object (VString "") (VString sample_hex);
                         path := [];
                         parent := safeParse_ctx mode_probe VNull None 0 |} initial))
        = [])
  /\ (exists i,
        JamfDBRef_parse plain_def (objectid bson_rejects tt)
          {| data := reference_object (VString "users") (VNumber 0); path := [];
             parent := safeParse_ctx mode_probe VNull None 0 |} initial
        = (Ret (Sync INVALID), pushed 0 i initial)
        /\ issue_code i = invalid_type
        /\ issue_expected i = Some "DBRef"
        /\ issue_received i = Some (VString "Object")
        /\ issue_path i = []
        /\ calls (snd (JamfDBRef_parse plain_def (objectid bson_rejects tt)
                         {| data := reference_object (VString "users") (VNumber 0);
                            path := [];
                            parent := safeParse_ctx mode_probe VNull None 0 |} initial))
           = [])
  /\ JamfDBRef_parse plain_def (objectid bson_rejects tt)
       {| data := nameless_reference; path := [];
          parent := safeParse_ctx mode_probe VNull None 0 |} initial
     = (Throw (TypeError "Cannot read properties of null (reading 'name')"), initial).
Proof.
  split; [|split].
  - apply (proj1 (JamfDBRef_falsy_field plain_def (objectid bson_rejects tt)
                    {| data := reference_object (VString "") (VString sample_hex);
                       path := [];
                       parent := safeParse_ctx mode_probe VNull None 0 |}
                    "Object" [("$ref", VString ""); ("$id", VString sample_hex)] initial
                    eq_refl eq_refl)).
    reflexivity.
  - apply (proj1 (JamfDBRef_falsy_field plain_def (objectid bson_rejects tt)
                    {| data := reference_object (VString "users") (VNumber 0);
                       path := [];
                       parent := safeParse_ctx mode_probe VNull None 0 |}
                    "Object" [("$ref", VString "users"); ("$id", VNumber 0)] initial
                    eq_refl eq_refl)).
    reflexivity.
  - apply (proj1 (proj2 (proj2 (JamfDBRef_falsy_field plain_def (objectid bson_rejects tt)
                    {| data := nameless_reference; path := [];
                       parent := safeParse_ctx mode_probe VNull None 0 |}
                    "Object"
                    [("$ref", VString ""); ("$id", VString sample_hex);
                     ("constructor", VNull)] initial eq_refl eq_refl)))).
    reflexivity.
Defined.

(* ================================================================== *)
(** * Footprints *)
(* ================================================================== *)

Lemma grows_refl a w : grows a [] [] w w.
Proof. repeat split; auto; symmetry; apply app_nil_r. Qed.

Lemma grows_logged a c w : grows a [] [c] w (logged c w).
Proof. repeat split; auto. rewrite read_logged. symmetry. apply app_nil_r. Qed.

Lemma grows_pushed a i w : grows a [i] [] w (pushed a i w).
Proof.
  repeat split; auto.
  - apply read_pushed.
  - intros b Hb. apply read_pushed_ne. congruence.
  - symmetry. apply app_nil_r.
Qed.

Lemma grows_trans a l1 c1 l2 c2 w w1 w2 :
  grows a l1 c1 w w1 -> grows a l2 c2 w1 w2 -> grows a (l1 ++ l2) (c1 ++ c2) w w2.
Proof.
  intros (H1 & H2 & H3 & H4 & H5 & H6) (K1 & K2 & K3 & K4 & K5 & K6). repeat split.
  - rewrite K1, H1. symmetry. apply app_assoc.
  - intros b Hb. rewrite K2, H2; auto.
  - rewrite K3, H3. symmetry. apply app_assoc.
  - congruence.
  - congruence.
  - congruence.
Qed.

Lemma grows_then_logged a li lc w w1 c :
  grows a li lc w w1 -> grows a li (lc ++ [c]) w (logged c w1).
Proof.
  intros H. rewrite <- (app_nil_r li).
  eapply grows_trans; [exact H|apply grows_logged].
Qed.

Lemma grows_then_pushed a li lc w w1 i :
  grows a li lc w w1 -> grows a (li ++ [i]) lc w (pushed a i w1).
Proof.
  intros H. rewrite <- (app_nil_r lc).
  eapply grows_trans; [exact H|apply grows_pushed].
Qed.

Lemma grows_new_array w w' li lc :
  grows (next_array w) li lc (snd (new_array w)) w' ->
  read_issues (next_array w) w' = li
  /\ (forall b, b <> next_array w -> read_issues b w' = read_issues b w)
  /\ calls w' = calls w ++ lc
  /\ zod_errors w' = zod_errors w
  /\ next_array w' = S (next_array w)
  /\ global_errorMap w' = global_errorMap w.
Proof.
  intros (H1 & H2 & H3 & H4 & H5 & H6). rewrite read_new_array in H1. repeat split; auto.
  intros b Hb. rewrite H2 by exact Hb.
  unfold read_issues, new_array. cbn [snd arrays].
  rewrite lookup_insert_ne by congruence. reflexivity.
Qed.

(** The entry point resolves what the parse step returned. *)
Lemma safeParse_resolves schema d params w r w' li lc :
  _parseSync schema
    {| data := d; path := default [] (params ≫= p_path);
       parent := safeParse_ctx schema d params (next_array w) |} (snd (new_array w))
  = (Ret r, w') ->
  grows (next_array w) li lc (snd (new_array w)) w' ->
  (isValid r = false -> li <> []) ->
  observe (safeParse schema d params w)
  = Ret (match r with VALID v => Succeeded v | _ => Failed li end)
  /\ snd (safeParse schema d params w) = w'.
Proof.
  intros Hstep Hg Hli. rewrite safeParse_run. cbv zeta. unfold Path in *. rewrite Hstep.
  destruct (grows_new_array w w' li lc Hg) as (Hr & _).
  destruct (isValid r) eqn:Hv.
  - destruct r; try discriminate. split; reflexivity.
  - destruct li as [|i l]; [destruct (Hli eq_refl eq_refl)|].
    rewrite (handleResult_issues _ r w' i l Hv) by exact Hr.
    cbn [observe snd safeParse_ctx common issues]. rewrite Hr.
    destruct r; try discriminate; split; reflexivity.
Qed.

(** What the entry point passes on when the parse step raises. *)
Lemma safeParse_raises schema d params w e w' :
  _parse schema
    {| data := d; path := default [] (params ≫= p_path);
       parent := safeParse_ctx schema d params (next_array w) |} (snd (new_array w))
  = (Throw e, w') ->
  safeParse schema d params w = (Throw e, w').
Proof.
  intros H. rewrite safeParse_run. cbv zeta. unfold _parseSync, bind, Path in *.
  rewrite H. reflexivity.
Qed.

Section IdentifierFootprint.
Variable other : Generator.

(** The ways through [JamfObjectId._parse]. *)
Lemma JamfObjectId_parse_cases def input w :
  let a := issues (common (parent input)) in
  let ctx := snd (_processInputParams def input) in
  let pb := default false (parseToBSON (common (parent input))) in
  (exists i, data input = VObjectId i
     /\ JamfObjectId_parse other def input w
        = (Ret (Sync (VALID (VObjectId i))),
           if pb then w else logged (NewObjectId (VString (toHexString i))) w))
  \/ (exists val i, instanceof_ObjectId (data input) = false
        /\ candidate (data input) = Some val /\ ObjectId_new other (calls w) val = inr i
        /\ JamfObjectId_parse other def input w
           = (Ret (Sync (VALID (if pb then VObjectId i else VString (toHexString i)))),
              logged (NewObjectId val) w))
  \/ (exists val e, instanceof_ObjectId (data input) = false
        /\ candidate (data input) = Some val /\ ObjectId_new other (calls w) val = inl e
        /\ JamfObjectId_parse other def input w
           = (Ret (Sync INVALID),
              pushed a (context_issue (global_errorMap w) ctx (custom_issue e))
                (logged (NewObjectId val) w)))
  \/ (exists r, instanceof_ObjectId (data input) = false
        /\ candidate (data input) = None /\ getUnkownType (data input) = Ret r
        /\ JamfObjectId_parse other def input w
           = (Ret (Sync INVALID),
              pushed a (context_issue (global_errorMap w) ctx
                          (invalid_type_issue "ObjectId | string" r)) w))
  \/ (exists e, instanceof_ObjectId (data input) = false
        /\ candidate (data input) = None /\ getUnkownType (data input) = Throw e
        /\ JamfObjectId_parse other def input w = (Throw e, w)).
Proof.
  intros a ctx pb.
  destruct (instanceof_ObjectId (data input)) eqn:Hi.
  - left. destruct (data input) eqn:Hd; try discriminate.
    eexists. split; [reflexivity|].
    apply (JamfObjectId_parse_instance other def input _ w Hd).
  - right. destruct (candidate (data input)) as [val|] eqn:Hc.
    + pose proof (JamfObjectId_parse_candidate other def input val w Hi Hc) as H.
      destruct (ObjectId_new other (calls w) val) as [e|i] eqn:Hn.
      * right. left. exists val, e. auto.
      * left. exists val, i. auto.
    + right. right.
      pose proof (JamfObjectId_parse_reject other def input w Hi Hc) as H.
      destruct (getUnkownType (data input)) as [r|e].
      * left. exists r. auto.
      * right. exists e. auto.
Qed.

Lemma JamfObjectId_parse_grows def input w :
  (exists e, JamfObjectId_parse other def input w = (Throw e, w)
             /\ instanceof_ObjectId (data input) = false
             /\ candidate (data input) = None
             /\ getUnkownType (data input) = Throw e)
  \/ (exists r li lc w',
        JamfObjectId_parse other def input w = (Ret (Sync r), w')
        /\ grows (issues (common (parent input))) li lc w w'
        /\ ((exists v, r = VALID v /\ li = [])
            \/ (exists i, r = INVALID /\ li = [i] /\ issue_path i = path input))
        /\ (lc = [] \/ exists v, lc = [NewObjectId v])).
Proof.
  destruct (JamfObjectId_parse_cases def input w)
    as [(i & Hd & ->)|[(val & i & _ & _ & _ & ->)|[(val & e & _ & _ & _ & ->)
       |[(r & _ & _ & _ & ->)|(e & Hi & Hc & He & ->)]]]].
  - right. destruct (default false _).
    + exists (VALID (VObjectId i)), [], [], w.
      split; [reflexivity|]. split; [apply grows_refl|]. split; eauto.
    + eexists _, [], [_], _.
      split; [reflexivity|]. split; [apply grows_logged|]. split; eauto.
  - right. eexists _, [], [_], _.
    split; [reflexivity|]. split; [apply grows_logged|]. split; eauto.
  - right. eexists _, [_], [_], _.
    split; [reflexivity|].
    split; [eapply (grows_trans _ [] [_] [_] []); [apply grows_logged|apply grows_pushed]|].
    split; [|eauto]. right. eexists. repeat split. apply context_issue_path.
  - right. eexists _, [_], [], _.
    split; [reflexivity|]. split; [apply grows_pushed|].
    split; [|eauto]. right. eexists. repeat split. apply context_issue_path.
  - left. eauto.
Qed.

Lemma JamfObjectId_parse_world def input w :
  exists li lc,
    grows (issues (common (parent input))) li lc w
      (snd (JamfObjectId_parse other def input w)).
Proof.
  destruct (JamfObjectId_parse_grows def input w)
    as [(e & -> & _)|(r & li & lc & w' & -> & Hg & _)].
  - exists [], []. apply grows_refl.
  - eauto.
Qed.

Lemma Identifier_parseSync def input w :
  _parseSync (JamfObjectId_new other def) input w
  = match JamfObjectId_parse other def input w with
    | (Ret (Sync r), w') => (Ret r, w')
    | (Ret (Async _), w') => (Throw (Error "Synchronous parse encountered promise."), w')
    | (Throw e, w') => (Throw e, w')
    end.
Proof.
  unfold _parseSync, bind.
  change (_parse (JamfObjectId_new other def)) with (JamfObjectId_parse other def).
  destruct (JamfObjectId_parse other def input w) as [[[r|q]|e] w']; reflexivity.
Qed.

End IdentifierFootprint.

(* ================================================================== *)
(** * The identifier validator, input by input *)
(* ================================================================== *)

Lemma safeParse_identifier_refused other def d val e params w :
  let ctx := safeParse_ctx (JamfObjectId_new other def) d params (next_array w) in
  instanceof_ObjectId d = false ->
  candidate d = Some val ->
  ObjectId_new other (calls w) val = inl e ->
  safeParse (JamfObjectId_new other def) d params w
  = (Ret (SafeParseError ctx None),
     pushed (next_array w)
       {| issue_code := custom; issue_expected := None; issue_received := None;
          issue_path := default [] (params ≫= p_path) ++ [];
          issue_message := default "unknown error" (exn_message e) |}
       (logged (NewObjectId val) (snd (new_array w)))).
Proof.
  intros ctx Hi Hc Hn. rewrite safeParse_run. cbv zeta. rewrite Identifier_parseSync.
  rewrite (JamfObjectId_parse_candidate other def _ val) by assumption.
  cbn [new_array snd calls]. rewrite Hn, custom_issue_made.
  cbn [parent safeParse_ctx common issues _processInputParams snd ctx_path path].
  erewrite handleResult_issues; [reflexivity|reflexivity|read_store; reflexivity].
Qed.

(** A rejected value whose type has a name: one issue, made through the
    error maps. *)
Lemma safeParse_identifier_rejected other def d r params w :
  let ctx := safeParse_ctx (JamfObjectId_new other def) d params (next_array w) in
  instanceof_ObjectId d = false ->
  candidate d = None ->
  getUnkownType d = Ret r ->
  safeParse (JamfObjectId_new other def) d params w
  = (Ret (SafeParseError ctx None),
     pushed (next_array w)
       (context_issue (global_errorMap w)
          (snd (_processInputParams def
                  {| data := d; path := default [] (params ≫= p_path); parent := ctx |}))
          (invalid_type_issue "ObjectId | string" r))
       (snd (new_array w))).
Proof.
  intros ctx Hi Hc Hr. rewrite safeParse_run. cbv zeta. rewrite Identifier_parseSync.
  fold ctx. rewrite JamfObjectId_parse_reject by assumption.
  cbn [data]. rewrite Hr.
  cbn [parent safeParse_ctx common issues ctx].
  erewrite handleResult_issues; [reflexivity|reflexivity|read_store; reflexivity].
Qed.

(** A rejected value whose type has none: the raise of [getUnkownType]
    leaves [safeParse], and only the array was allocated. *)
Lemma safeParse_identifier_nameless other def d e params w :
  instanceof_ObjectId d = false ->
  candidate d = None ->
  getUnkownType d = Throw e ->
  safeParse (JamfObjectId_new other def) d params w = (Throw e, snd (new_array w)).
Proof.
  intros Hi Hc He. apply safeParse_raises.
  change (_parse (JamfObjectId_new other def)) with (JamfObjectId_parse other def).
  rewrite JamfObjectId_parse_reject by assumption.
  cbn [data]. rewrite He. reflexivity.
Qed.

Lemma Identifier_observe_rejected other def d params w :
  instanceof_ObjectId d = false ->
  candidate d = None ->
  observe (safeParse (JamfObjectId_new other def) d params w)
  = match getUnkownType d with
    | Ret r =>
        Ret (Failed
               [context_issue (global_errorMap w)
                  (snd (_processInputParams def
                          {| data := d; path := default [] (params ≫= p_path);
                             parent := safeParse_ctx (JamfObjectId_new other def) d params
                                         (next_array w) |}))
                  (invalid_type_issue "ObjectId | string" r)])
    | Throw e => Throw e
    end.
Proof.
  intros Hi Hc. destruct (getUnkownType d) as [r|e] eqn:Hr.
  - rewrite (safeParse_identifier_rejected other def d r) by assumption.
    cbn [observe safeParse_ctx common issues]. read_store. reflexivity.
  - rewrite (safeParse_identifier_nameless other def d e) by assumption. reflexivity.
Qed.

(** X1.  What [safeParse] of the identifier validator can do.  On a value
    whose type [getUnkownType] names (every primitive, [null], every
    object that does not shadow its constructor) it does not raise: it
    succeeds, or fails with exactly one issue, placed at the caller's
    path.  A raise can only come on a value the validator turns away
    (neither a native identifier, nor a string, nor an object with a
    truthy [$oid]); and on such a value what [getUnkownType] raises leaves
    both entry points. *)
Theorem Identifier_safeParse_outcomes
    (other : Generator) (def : Def) (d : value)
    (params : option JamfParseParams) (w : world) :
  (named d = true ->
   (exists v, observe (safeParse (JamfObjectId_new other def) d params w)
              = Ret (Succeeded v))
   \/ (exists i, observe (safeParse (JamfObjectId_new other def) d params w)
                 = Ret (Failed [i])
                 /\ issue_path i = default [] (params ≫= p_path)))
  /\ (forall e,
        observe (safeParse (JamfObjectId_new other def) d params w) = Throw e ->
        instanceof_ObjectId d = false /\ candidate d = None)
  /\ (forall e,
        instanceof_ObjectId d = false ->
        candidate d = None ->
        getUnkownType d = Throw e ->
        observe (safeParse (JamfObjectId_new other def) d params w) = Throw e
        /\ observe (safeParseAsync_awaited (JamfObjectId_new other def) d params w)
           = Throw e).
Proof.
  split; [|split].
  - intros Hnamed. apply named_string in Hnamed as [r Hr].
    destruct (instanceof_ObjectId d) eqn:Hi.
    + destruct d; try discriminate. left.
      rewrite safeParse_identifier_instance. eexists. reflexivity.
    + destruct (candidate d) as [val|] eqn:Hc.
      * destruct (ObjectId_new other (calls w) val) as [e|i] eqn:Hn.
        -- right. rewrite (safeParse_identifier_refused other def d val e) by assumption.
           eexists. cbn [observe safeParse_ctx common issues]. read_store.
           split; [reflexivity|]. apply app_nil_r.
        -- left. rewrite (safeParse_identifier_candidate other def d val i) by assumption.
           eexists. reflexivity.
      * right. rewrite Identifier_observe_rejected by assumption. rewrite Hr.
        eexists. split; [reflexivity|]. apply context_issue_path.
  - intros e He.
    destruct (instanceof_ObjectId d) eqn:Hi.
    + destruct d; try discriminate.
      rewrite safeParse_identifier_instance in He. discriminate He.
    + destruct (candidate d) as [val|] eqn:Hc; [|auto].
      destruct (ObjectId_new other (calls w) val) as [e'|i] eqn:Hn.
      * rewrite (safeParse_identifier_refused other def d val e') in He by assumption.
        discriminate He.
      * rewrite (safeParse_identifier_candidate other def d val i) in He by assumption.
        discriminate He.
  - intros e Hi Hc He.
    assert (Hs : observe (safeParse (JamfObjectId_new other def) d params w) = Throw e).
    { rewrite Identifier_observe_rejected by assumption. rewrite He. reflexivity. }
    split; [exact Hs|]. rewrite Identifier_entry_points_agree. exact Hs.
Qed.

Lemma Identifier_safeParse_outcomes_witness :
  ((exists v, observe (safeParse (JamfObjectId_new bson_rejects plain_def) (VNumber 42)
                         None initial) = Ret (Succeeded v))
   \/ (exists i, observe (safeParse (JamfObjectId_new bson_rejects plain_def) (VNumber 42)
                            None initial) = Ret (Failed [i])
                 /\ issue_path i = []))
  /\ observe (safeParse (JamfObjectId_new bson_rejects plain_def)
                (VObject "Object" [("constructor", VNull)]) None initial)
     = Throw (TypeError "Cannot read properties of null (reading 'name')")
  /\ observe (safeParseAsync_awaited (JamfObjectId_new bson_rejects plain_def)
                (VObject "Object" [("constructor", VNull)]) None initial)
     = Throw (TypeError "Cannot read properties of null (reading 'name')").
Proof.
  split.
  - apply (proj1 (Identifier_safeParse_outcomes bson_rejects plain_def (VNumber 42)
                    None initial)).
    reflexivity.
  - apply (proj2 (proj2 (Identifier_safeParse_outcomes bson_rejects plain_def
                           (VObject "Object" [("constructor", VNull)]) None initial)));
      reflexivity.
Defined.

(** X2.  One run of [JamfObjectId._parse] never returns a promise.
    Either it raises, which it can only do on data it is turning away and
    before it has written anything; or it returns: invalid exactly when it
    has appended one issue, at its own path, to the issue array of its
    context, and valid when it has appended none.  Every other array, the
    [ZodError] objects, the allocation counter and the global error map
    are as before; the only constructor it may enter, and at most once, is
    the identifier's. *)
Theorem JamfObjectId_parse_footprint
    (other : Generator) (def : Def) (input : ParseInput) (w : world) :
  let a := issues (common (parent input)) in
  (exists e,
     JamfObjectId_parse other def input w = (Throw e, w)
     /\ instanceof_ObjectId (data input) = false
     /\ candidate (data input) = None)
  \/ (exists r li lc w',
        JamfObjectId_parse other def input w = (Ret (Sync r), w')
        /\ read_issues a w' = read_issues a w ++ li
        /\ ((exists v, r = VALID v /\ li = [])
            \/ (exists i, r = INVALID /\ li = [i] /\ issue_path i = path input))
        /\ (forall b, b <> a -> read_issues b w' = read_issues b w)
        /\ zod_errors w' = zod_errors w
        /\ next_array w' = next_array w
        /\ global_errorMap w' = global_errorMap w
        /\ calls w' = calls w ++ lc
        /\ (lc = [] \/ exists v, lc = [NewObjectId v])).
Proof.
  intros a.
  destruct (JamfObjectId_parse_grows other def input w)
    as [(e & Hp & Hi & Hc & _)
       |(r & li & lc & w' & Hp & (H1 & H2 & H3 & H4 & H5 & H6) & Hshape & Hlc)].
  - left. exists e. auto.
  - right. exists r, li, lc, w'. repeat split; assumption.
Qed.

(** X3.  A value that is neither a native identifier, nor a string, nor
    an object with a truthy [$oid] (a number, [null], [undefined], an
    object whose [$oid] is absent or empty), and whose type
    [getUnkownType] names, fails with one [invalid_type] issue expecting
    ["ObjectId | string"] and naming that type; no constructor is
    entered. *)
Theorem Identifier_rejects_other_shapes
    (other : Generator) (def : Def) (d : value) (r : string)
    (params : option JamfParseParams) (w : world) :
  instanceof_ObjectId d = false ->
  candidate d = None ->
  getUnkownType d = Ret (VString r) ->
  exists i,
    observe (safeParse (JamfObjectId_new other def) d params w) = Ret (Failed [i])
    /\ issue_code i = invalid_type
    /\ issue_expected i = Some "ObjectId | string"
    /\ issue_received i = Some (VString r)
    /\ issue_path i = default [] (params ≫= p_path)
    /\ calls (snd (safeParse (JamfObjectId_new other def) d params w)) = calls w.
Proof.
  intros Hi Hc Hr.
  rewrite (safeParse_identifier_rejected other def d (VString r)) by assumption.
  eexists. cbn [observe snd safeParse_ctx common issues]. read_store.
  split; [reflexivity|].
  rewrite context_issue_code, context_issue_expected, context_issue_received,
    context_issue_path.
  repeat split.
Qed.

Lemma Identifier_rejects_other_shapes_witness :
  (exists i,
     observe (safeParse (JamfObjectId_new bson_rejects plain_def) (VNumber 42)
                None initial) = Ret (Failed [i])
     /\ issue_code i = invalid_type
     /\ issue_expected i = Some "ObjectId | string"
     /\ issue_received i = Some (VString "number")
     /\ issue_path i = []
     /\ calls (snd (safeParse (JamfObjectId_new bson_rejects plain_def) (VNumber 42)
                      None initial)) = [])
  /\ (exists i,
        observe (safeParse (JamfObjectId_new bson_rejects plain_def)
                   (VObject "Object" [("$oid", VString "")]) None initial)
        = Ret (Failed [i])
        /\ issue_code i = invalid_type
        /\ issue_expected i = Some "ObjectId | string"
        /\ issue_received i = Some (VString "Object")
        /\ issue_path i = []
        /\ calls (snd (safeParse (JamfObjectId_new bson_rejects plain_def)
                         (VObject "Object" [("$oid", VString "")]) None initial)) = []).
Proof.
  split.
  - apply (Identifier_rejects_other_shapes bson_rejects plain_def (VNumber 42) "number"
             None initial); reflexivity.
  - apply (Identifier_rejects_other_shapes bson_rejects plain_def
             (VObject "Object" [("$oid", VString "")]) "Object" None initial); reflexivity.
Defined.

(** X4.  When the identifier constructor raises on the candidate (the
    string, or the truthy [$oid] of an object), the run fails with one
    [custom] issue at the caller's path whose message is the message of
    what was raised, or ["unknown error"] when it has none; no error map of
    the caller or the schema changes that message, and the constructor was
    entered once. *)
Theorem Identifier_construction_failure
    (other : Generator) (def : Def) (d val : value) (e : exn)
    (params : option JamfParseParams) (w : world) :
  instanceof_ObjectId d = false ->
  candidate d = Some val ->
  ObjectId_new other (calls w) val = inl e ->
  observe (safeParse (JamfObjectId_new other def) d params w)
  = Ret (Failed
           [ {| issue_code := custom; issue_expected := None; issue_received := None;
                issue_path := default [] (params ≫= p_path);
                issue_message := default "unknown error" (exn_message e) |} ])
  /\ calls (snd (safeParse (JamfObjectId_new other def) d params w))
     = calls w ++ [NewObjectId val].
Proof.
  intros Hi Hc Hn.
  rewrite (safeParse_identifier_refused other def d val e) by assumption.
  cbn [observe snd safeParse_ctx common issues]. read_store.
  rewrite app_nil_r. split; reflexivity.
Qed.

Lemma Identifier_construction_failure_witness :
  observe (safeParse (JamfObjectId_new bson_rejects plain_def) (VString "not-an-id")
             None initial)
  = Ret (Failed
           [ {| issue_code := custom; issue_expected := None; issue_received := None;
                issue_path := [];
                issue_message :=
                  "input must be a 24 character hex string, 12 byte Uint8Array, or an integer" |} ])
  /\ observe (safeParse (JamfObjectId_new (fun _ _ => inl (Thrown None)) plain_def)
                (VObject "Object" [("$oid", VNumber 5)]) None initial)
     = Ret (Failed
              [ {| issue_code := custom; issue_expected := None; issue_received := None;
                   issue_path := []; issue_message := "unknown error" |} ]).
Proof.
  split.
  - apply (Identifier_construction_failure bson_rejects plain_def
             (VString "not-an-id") (VString "not-an-id")
             (BSONError "input must be a 24 character hex string, 12 byte Uint8Array, or an integer")
             None initial); reflexivity.
  - apply (Identifier_construction_failure (fun _ _ => inl (Thrown None)) plain_def
             (VObject "Object" [("$oid", VNumber 5)]) (VNumber 5) (Thrown None)
             None initial); reflexivity.
Defined.

(** X5.  Among strings, the identifier validator succeeds exactly on
    those of 24 hex digits (the strings the constructor takes). *)
Theorem Identifier_string_accepted_iff
    (other : Generator) (def : Def) (s : string)
    (params : option JamfParseParams) (w : world) :
  (exists v, observe (safeParse (JamfObjectId_new other def) (VString s) params w)
             = Ret (Succeeded v))
  <-> is_hex24 s = true.
Proof.
  split.
  - intros [v Hv]. destruct (is_hex24 s) eqn:H; [reflexivity|].
    rewrite (safeParse_identifier_refused other def (VString s) (VString s)
               (BSONError "input must be a 24 character hex string, 12 byte Uint8Array, or an integer"))
      in Hv
      by (reflexivity || (cbn [ObjectId_new]; unfold ObjectId_of_string; rewrite H; reflexivity)).
    discriminate Hv.
  - intros H. destruct (ObjectId_of_string_hex24 s H) as (i & Hi & _).
    rewrite (safeParse_identifier_candidate other def (VString s) (VString s) i)
      by (reflexivity || exact Hi).
    eexists. reflexivity.
Qed.

(** X6.  The tagged form stands for its string: an object whose [$oid]
    is a non-empty string validates, to the caller, exactly as that string
    does: the same data, or the same issue. *)
Theorem Identifier_tagged_as_string
    (other : Generator) (def : Def)
    (cname : string) (props : list (string * value)) (s : string)
    (params : option JamfParseParams) (w : world) :
  lookup_prop "$oid" props = VString s ->
  s <> "" ->
  observe (safeParse (JamfObjectId_new other def) (VObject cname props) params w)
  = observe (safeParse (JamfObjectId_new other def) (VString s) params w).
Proof.
  intros Ho Hs.
  assert (Hc : candidate (VObject cname props) = Some (VString s)).
  { cbn [candidate]. rewrite Ho. cbn [truthy].
    destruct (String.eqb s "") eqn:He; [apply String.eqb_eq in He; contradiction|].
    reflexivity. }
  destruct (ObjectId_new other (calls w) (VString s)) as [e|i] eqn:Hn.
  - rewrite (safeParse_identifier_refused other def (VObject cname props) (VString s) e)
      by (reflexivity || assumption).
    rewrite (safeParse_identifier_refused other def (VString s) (VString s) e)
      by (reflexivity || assumption).
    cbn [observe safeParse_ctx common issues]. read_store. reflexivity.
  - rewrite (safeParse_identifier_candidate other def (VObject cname props) (VString s) i)
      by (reflexivity || assumption).
    rewrite (safeParse_identifier_candidate other def (VString s) (VString s) i)
      by (reflexivity || assumption).
    reflexivity.
Qed.

Lemma Identifier_tagged_as_string_witness :
  observe (safeParse (JamfObjectId_new bson_rejects plain_def)
             (VObject "Object" [("$oid", VString sample_HEX)]) None initial)
  = observe (safeParse (JamfObjectId_new bson_rejects plain_def)
               (VString sample_HEX) None initial).
Proof.
  apply (Identifier_tagged_as_string bson_rejects plain_def "Object"
           [("$oid", VString sample_HEX)] sample_HEX None initial).
  - reflexivity.
  - discriminate.
Defined.

(** X7.  The two output forms go together.  Take an input that is not a
    native identifier and whose candidate, if it has one, is a string (so
    that the library decodes and does not generate), and two states of the
    program with the same global error map.  Then the run with
    [parseToBSON] in the one and the run without it in the other both
    succeed, the first on a native identifier and the second on the
    canonical hex string of that same identifier; or both fail with the
    same issues; or both raise the same error. *)
Theorem Identifier_output_forms_agree
    (other : Generator) (def : Def) (d : value)
    (params : option JamfParseParams) (w1 w2 : world) :
  global_errorMap w1 = global_errorMap w2 ->
  instanceof_ObjectId d = false ->
  generated d = false ->
  let on :=
    observe (safeParse (JamfObjectId_new other def) d (with_parseToBSON true params) w1) in
  let off :=
    observe (safeParse (JamfObjectId_new other def) d (with_parseToBSON false params) w2) in
  (exists i, on = Ret (Succeeded (VObjectId i))
             /\ off = Ret (Succeeded (VString (toHexString i))))
  \/ (exists l, on = Ret (Failed l) /\ off = Ret (Failed l))
  \/ (exists e, on = Throw e /\ off = Throw e).
Proof.
  intros Hm Hi Hg on off. subst on off.
  destruct (candidate d) as [val|] eqn:Hc.
  - unfold generated in Hg. rewrite Hc in Hg.
    destruct val as [| |b|n|s|i|c o db|cn props]; try discriminate Hg.
    destruct (ObjectId_of_string s) as [e|i] eqn:Hn.
    + right. left.
      rewrite !(safeParse_identifier_refused other def d (VString s) e) by assumption.
      cbn [observe safeParse_ctx common issues]. read_store.
      eexists. split; reflexivity.
    + left. exists i.
      rewrite !(safeParse_identifier_candidate other def d (VString s) i) by assumption.
      split; reflexivity.
  - right. rewrite !Identifier_observe_rejected by assumption. rewrite Hm.
    destruct (getUnkownType d) as [r|e]; [left|right]; eexists; split; reflexivity.
Qed.

Lemma Identifier_output_forms_agree_witness :
  (exists i,
     observe (safeParse (JamfObjectId_new bson_counts plain_def) (VString sample_HEX)
                (with_parseToBSON true None) initial) = Ret (Succeeded (VObjectId i))
     /\ observe (safeParse (JamfObjectId_new bson_counts plain_def) (VString sample_HEX)
                   (with_parseToBSON false None)
                   (logged (NewObjectId (VNumber 5)) initial))
        = Ret (Succeeded (VString (toHexString i))))
  \/ (exists l,
        observe (safeParse (JamfObjectId_new bson_counts plain_def) (VString sample_HEX)
                   (with_parseToBSON true None) initial) = Ret (Failed l)
        /\ observe (safeParse (JamfObjectId_new bson_counts plain_def) (VString sample_HEX)
                      (with_parseToBSON false None)
                      (logged (NewObjectId (VNumber 5)) initial)) = Ret (Failed l))
  \/ (exists e,
        observe (safeParse (JamfObjectId_new bson_counts plain_def) (VString sample_HEX)
                   (with_parseToBSON true None) initial) = Throw e
        /\ observe (safeParse (JamfObjectId_new bson_counts plain_def) (VString sample_HEX)
                      (with_parseToBSON false None)
                      (logged (NewObjectId (VNumber 5)) initial)) = Throw e).
Proof.
  apply (Identifier_output_forms_agree bson_counts plain_def (VString sample_HEX)
           None initial (logged (NewObjectId (VNumber 5)) initial));
    reflexivity.
Defined.

(** X8.  The identifier validator is idempotent on what it accepts: the
    data of a successful validation validates, under the same parameters,
    to itself. *)
Theorem Identifier_idempotent
    (other : Generator) (def : Def) (d v : value)
    (params : option JamfParseParams) (w w1 : world) :
  observe (safeParse (JamfObjectId_new other def) d params w) = Ret (Succeeded v) ->
  observe (safeParse (JamfObjectId_new other def) v params w1) = Ret (Succeeded v).
Proof.
  intros H.
  destruct (instanceof_ObjectId d) eqn:Hi.
  - destruct d; try discriminate.
    rewrite safeParse_identifier_instance in H. injection H as <-.
    rewrite safeParse_identifier_instance. reflexivity.
  - destruct (candidate d) as [val|] eqn:Hc.
    + destruct (ObjectId_new other (calls w) val) as [e|i] eqn:Hn.
      * rewrite (safeParse_identifier_refused other def d val e) in H by assumption.
        discriminate H.
      * rewrite (safeParse_identifier_candidate other def d val i) in H by assumption.
        cbn [observe] in H. injection H as <-.
        destruct (default false (params ≫= p_parseToBSON)) eqn:Hb.
        -- rewrite safeParse_identifier_instance. reflexivity.
        -- rewrite (safeParse_identifier_candidate other def _ (VString (toHexString i)) i)
             by (reflexivity || apply ObjectId_of_string_toHexString).
           rewrite Hb. reflexivity.
    + rewrite Identifier_observe_rejected in H by assumption.
      destruct (getUnkownType d); discriminate H.
Qed.

Lemma Identifier_idempotent_witness :
  observe (safeParse (JamfObjectId_new bson_rejects plain_def) (VString sample_hex)
             None initial)
  = Ret (Succeeded (VString sample_hex)).
Proof.
  apply (Identifier_idempotent bson_rejects plain_def (VString sample_HEX)
           (VString sample_hex) None initial initial).
  reflexivity.
Defined.

(** In one and the same world, the caller's [async] entry makes no
    difference to the identifier validator. *)
Lemma Identifier_without_async other def d params w :
  observe (safeParse (JamfObjectId_new other def) d params w)
  = observe (safeParse (JamfObjectId_new other def) d (without_async params) w).
Proof.
  destruct params as [p|]; [|reflexivity].
  rewrite !safeParse_run. cbv zeta. rewrite !Identifier_parseSync.
  cbn [without_async mbind option_bind p_path].
  rewrite (JamfObjectId_parse_ext other def d (default [] (p_path p))
             (safeParse_ctx (JamfObjectId_new other def) d (Some p) (next_array w))
             (safeParse_ctx (JamfObjectId_new other def) d
                (Some {| p_path := p_path p; p_errorMap := p_errorMap p;
                         p_async := None; p_parseToBSON := p_parseToBSON p |})
                (next_array w)))
    by reflexivity.
  match goal with |- context [JamfObjectId_parse other def ?i ?w1] =>
    destruct (JamfObjectId_parse other def i w1) as [[[r|q]|e] w'] end;
    try reflexivity.
  apply handleResult_observe. reflexivity.
Qed.

(** X9.  The identifier validator does not look at the mode.  On an
    input whose candidate, if it has one, is a string, in two states of
    the program with the same global error map, [safeParse] with the
    caller's [async] entry and [safeParse] without it show the same. *)
Theorem Identifier_ignores_async
    (other : Generator) (def : Def) (d : value)
    (params : option JamfParseParams) (w1 w2 : world) :
  global_errorMap w1 = global_errorMap w2 ->
  generated d = false ->
  observe (safeParse (JamfObjectId_new other def) d params w1)
  = observe (safeParse (JamfObjectId_new other def) d (without_async params) w2).
Proof.
  intros Hm Hg.
  rewrite <- (Identifier_without_async other def d params w2).
  apply (safeParse_steady other (Identifier def) d params w1 w2 Hm eq_refl Hg).
Qed.

Lemma Identifier_ignores_async_witness :
  observe (safeParse (JamfObjectId_new bson_counts plain_def) (VString sample_hex)
             (only_async true) initial)
  = observe (safeParse (JamfObjectId_new bson_counts plain_def) (VString sample_hex)
               (without_async (only_async true))
               (logged (NewObjectId (VNumber 5)) initial)).
Proof.
  apply (Identifier_ignores_async bson_counts plain_def (VString sample_hex)
           (only_async true) initial (logged (NewObjectId (VNumber 5)) initial));
    reflexivity.
Defined.

(* ================================================================== *)
(** * The reference validator, input by input *)
(* ================================================================== *)

Lemma DBRef_new_instance c o db r :
  DBRef_new c o db = inr r -> instanceof_DBRef r = true.
Proof.
  unfold DBRef_new. destruct c; try discriminate.
  destruct (split_dot s) as [|? [|? [|? ?]]]; intros H; injection H as <-; reflexivity.
Qed.

Section ReferenceFootprint.
Variable other : Generator.

Lemma Reference_parseSync def input w :
  _parseSync (JamfDBRef_new other def) input w
  = match JamfDBRef_parse def (objectid other tt) input w with
    | (Ret (Sync r), w') => (Ret r, w')
    | (Ret (Async _), w') => (Throw (Error "Synchronous parse encountered promise."), w')
    | (Throw e, w') => (Throw e, w')
    end.
Proof.
  unfold _parseSync, bind.
  change (_parse (JamfDBRef_new other def)) with (JamfDBRef_parse def (objectid other tt)).
  destruct (JamfDBRef_parse def (objectid other tt) input w) as [[[r|q]|e] w']; reflexivity.
Qed.

(** Every way through [JamfDBRef._parse] that does not meet a promise
    ([null] apart). *)
Lemma JamfDBRef_parse_grows def input w :
  data input <> VNull ->
  async (common (parent input)) && delegates (data input) = false ->
  (exists e,
     JamfDBRef_parse def (objectid other tt) input w = (Throw e, w)
     /\ ((instanceof_DBRef (data input) = false /\ delegates (data input) = false
          /\ getUnkownType (data input) = Throw e)
         \/ (delegates (data input) = true
             /\ instanceof_ObjectId (nested_id (data input)) = false
             /\ candidate (nested_id (data input)) = None
             /\ getUnkownType (nested_id (data input)) = Throw e)))
  \/ (exists r li l1 l2 w',
        JamfDBRef_parse def (objectid other tt) input w = (Ret (Sync r), w')
        /\ grows (issues (common (parent input))) li (l1 ++ l2) w w'
        /\ ((exists v, r = VALID v /\ li = [] /\ instanceof_DBRef v = true)
            \/ (exists i, r = INVALID /\ li = [i] /\ issue_path i = path input)
            \/ (exists i, r = INVALID /\ li = [i]
                          /\ issue_path i = path input ++ [Key "$id"] /\ l2 = []))
        /\ (l1 = [] \/ exists v, l1 = [NewObjectId v])
        /\ (l2 = [] \/ exists c o db, l2 = [NewDBRef c o db])).
Proof.
  intros Hn Hmode.
  destruct (delegates (data input)) eqn:Hdel.
  - rewrite andb_true_r in Hmode.
    destruct (data input) as [| |b|n|s|i|c o db|cn props] eqn:Hd; try discriminate.
    rewrite (JamfDBRef_parse_delegated_sync other def input cn props w Hd)
      by (rewrite ?Hd; assumption).
    cbn [nested_id].
    destruct (JamfObjectId_parse_grows other plain_def
                {| data := lookup_prop "$id" props; path := path input ++ [Key "$id"];
                   parent := parent input |} w)
      as [(e & -> & Hi & Hc & He)|(r & li & lc & w1 & -> & Hg & Hshape & Hlc)].
    { left. exists e. split; [reflexivity|]. right. auto. }
    right. cbn [parent path] in Hg, Hshape.
    rewrite (JamfDBRef_logic_cases input _ cn props r w1 Hd).
    destruct Hshape as [(v & -> & ->)|(i & -> & -> & Hpath)].
    + destruct (DBRef_new (lookup_prop "$ref" props) v (lookup_prop "$db" props))
        as [e|x] eqn:Hnew.
      * eexists INVALID, [_], lc, [_], _. split; [reflexivity|].
        split; [|split; [|split; [exact Hlc|right; eauto]]].
        -- apply (grows_then_pushed _ [] (lc ++ [_])), grows_then_logged, Hg.
        -- right. left. eexists. repeat split. apply context_issue_path.
      * eexists (VALID x), [], lc, [_], _. split; [reflexivity|].
        split; [|split; [|split; [exact Hlc|right; eauto]]].
        -- apply grows_then_logged, Hg.
        -- left. exists x. repeat split. exact (DBRef_new_instance _ _ _ _ Hnew).
    + eexists INVALID, [i], lc, [], w1. split; [reflexivity|].
      rewrite app_nil_r.
      split; [exact Hg|]. split; [|split; [exact Hlc|left; reflexivity]].
      right. right. exists i. repeat split. exact Hpath.
  - destruct (instanceof_DBRef (data input)) eqn:Hi.
    + right.
      destruct (data input) as [| |b|n|s|i|c o db|cn props] eqn:Hd; try discriminate.
      rewrite (JamfDBRef_parse_instance def _ input c o db w Hd). rewrite Hd.
      eexists _, [], [], [], w. split; [reflexivity|].
      split; [apply grows_refl|]. split; [|split; left; reflexivity].
      left. eexists. repeat split.
    + rewrite (JamfDBRef_parse_reject def (objectid other tt) input w Hi Hn Hdel).
      destruct (getUnkownType (data input)) as [r|e] eqn:Hr.
      * right. eexists _, [_], [], [], _. split; [reflexivity|].
        split; [apply grows_pushed|]. split; [|split; left; reflexivity].
        right. left. eexists. repeat split. apply context_issue_path.
      * left. exists e. split; [reflexivity|]. left. auto.
Qed.

(** Whatever the input, the world after [JamfDBRef._parse] differs from
    the one before by issues pushed on the context's array and by entered
    constructors. *)
Lemma JamfDBRef_parse_world def input w :
  exists li lc,
    grows (issues (common (parent input))) li lc w
      (snd (JamfDBRef_parse def (objectid other tt) input w)).
Proof.
  assert (Hsync : data input <> VNull ->
                  async (common (parent input)) && delegates (data input) = false ->
                  exists li lc,
                    grows (issues (common (parent input))) li lc w
                      (snd (JamfDBRef_parse def (objectid other tt) input w))).
  { intros Hn Hmode.
    destruct (JamfDBRef_parse_grows def input w Hn Hmode)
      as [(e & -> & _)|(r & li & l1 & l2 & w' & -> & Hg & _)].
    - exists [], []. apply grows_refl.
    - eauto. }
  destruct (data input) as [| |b|n|s|i|c o db|cn props] eqn:Hd.
  2: { rewrite (JamfDBRef_parse_null def _ input w Hd). exists [], []. apply grows_refl. }
  1-6: apply Hsync; [discriminate|apply andb_false_r].
  destruct (async (common (parent input)) && delegates (VObject cn props)) eqn:Hmode.
  - apply andb_true_iff in Hmode as [Ha Hdel].
    rewrite (JamfDBRef_parse_delegated_async other def input cn props w Hd)
      by (rewrite ?Hd; assumption).
    destruct (JamfObjectId_parse_world other plain_def
                {| data := lookup_prop "$id" props; path := path input ++ [Key "$id"];
                   parent := parent input |} w) as (li & lc & Hg).
    exists li, lc. cbn [parent] in Hg.
    destruct (JamfObjectId_parse other plain_def _ w) as [[x|e] w1]; exact Hg.
  - apply Hsync; [discriminate|reflexivity].
Qed.

End ReferenceFootprint.

Lemma safeParseAsync_awaited_without_async schema d params w :
  safeParseAsync_awaited schema d params w
  = safeParseAsync_awaited schema d (without_async params) w.
Proof. destruct params; reflexivity. Qed.

Lemma without_async_path params :
  default [] (without_async params ≫= p_path) = default [] (params ≫= p_path).
Proof. destruct params; reflexivity. Qed.

Lemma without_async_parseToBSON params :
  default false (without_async params ≫= p_parseToBSON)
  = default false (params ≫= p_parseToBSON).
Proof. destruct params; reflexivity. Qed.

Lemma without_async_async params : default false (without_async params ≫= p_async) = false.
Proof. destruct params; reflexivity. Qed.

(** [safeParseAsync] of the reference validator is [safeParse] with the
    caller's [async] entry taken away. *)
Lemma Reference_async_as_sync other def d params w :
  observe (safeParseAsync_awaited (JamfDBRef_new other def) d params w)
  = observe (safeParse (JamfDBRef_new other def) d (without_async params) w)
  /\ snd (safeParseAsync_awaited (JamfDBRef_new other def) d params w)
     = snd (safeParse (JamfDBRef_new other def) d (without_async params) w).
Proof.
  rewrite safeParseAsync_awaited_without_async.
  destruct (entry_points_agree (JamfDBRef_new other def) d (without_async params) w)
    as [H1 H2]; [|split; congruence].
  intros a w1. apply Reference_steps_agree; try reflexivity.
  cbn [safeParse_ctx common async]. rewrite without_async_async. reflexivity.
Qed.

Lemma DBRef_new_string c o db : exists x, DBRef_new (VString c) o db = inr x.
Proof.
  unfold DBRef_new. destruct (split_dot c) as [|? [|? [|? ?]]]; eauto.
Qed.

Lemma truthy_string s : s <> "" -> truthy (VString s) = true.
Proof.
  intros H. cbn [truthy]. destruct (String.eqb s "") eqn:He; [|reflexivity].
  apply String.eqb_eq in He. contradiction.
Qed.

(** The synchronous run on delegated data whose identifier is accepted. *)
Lemma Reference_safeParse_identifier_valid other def cn props val i params w :
  delegates (VObject cn props) = true ->
  default false (params ≫= p_async) = false ->
  instanceof_ObjectId (lookup_prop "$id" props) = false ->
  candidate (lookup_prop "$id" props) = Some val ->
  ObjectId_new other (calls w) val = inr i ->
  let ctx := safeParse_ctx (JamfDBRef_new other def) (VObject cn props) params
               (next_array w) in
  let oid := if default false (params ≫= p_parseToBSON)
             then VObjectId i else VString (toHexString i) in
  let ref := lookup_prop "$ref" props in
  let db := lookup_prop "$db" props in
  safeParse (JamfDBRef_new other def) (VObject cn props) params w
  = match DBRef_new ref oid db with
    | inr x =>
        (Ret (SafeParseSuccess x),
         logged (NewDBRef ref oid db) (logged (NewObjectId val) (snd (new_array w))))
    | inl e =>
        (Ret (SafeParseError ctx None),
         pushed (next_array w)
           {| issue_code := custom; issue_expected := None; issue_received := None;
              issue_path := default [] (params ≫= p_path) ++ [];
              issue_message := default "unknown error" (exn_message e) |}
           (logged (NewDBRef ref oid db) (logged (NewObjectId val) (snd (new_array w)))))
    end.
Proof.
  intros Hdel Ha Hi Hc Hn ctx oid ref db.
  rewrite safeParse_run. cbv zeta. rewrite Reference_parseSync. fold ctx.
  rewrite (JamfDBRef_parse_delegated_sync other def
             {| data := VObject cn props; path := default [] (params ≫= p_path);
                parent := ctx |} cn props (snd (new_array w)) eq_refl Hdel Ha).
  cbn [path parent].
  rewrite (JamfObjectId_parse_candidate other plain_def _ val) by assumption.
  cbn [new_array snd calls]. rewrite Hn.
  rewrite (JamfDBRef_logic_cases _ _ cn props) by reflexivity.
  cbn [parent common safeParse_ctx parseToBSON ctx].
  change (default false (Some (default false (params ≫= p_parseToBSON))))
    with (default false (params ≫= p_parseToBSON)).
  fold oid ref db.
  destruct (DBRef_new ref oid db) as [e|x]; [|reflexivity].
  rewrite custom_issue_made. unfold ctx.
  cbn [_processInputParams snd common parent safeParse_ctx issues ctx_path path].
  erewrite handleResult_issues; [reflexivity|reflexivity|read_store; reflexivity].
Qed.

(** X10.  An object with a non-empty string [$ref] and a [$id] of 24 hex
    digits validates to the native reference that the library builds from
    [$ref], the validated identifier and [$db]: the identifier inside is
    native with [parseToBSON], and the canonical hex string without it.
    The identifier constructor is entered first, the reference
    constructor second.  This holds for [safeParseAsync] and, the caller
    not having set [async], for [safeParse]. *)
Theorem Reference_success
    (other : Generator) (def : Def)
    (cname : string) (props : list (string * value)) (c s : string)
    (params : option JamfParseParams) (w : world) :
  lookup_prop "$ref" props = VString c -> c <> "" ->
  lookup_prop "$id" props = VString s -> is_hex24 s = true ->
  exists i x,
    ObjectId_of_string s = inr i
    /\ DBRef_new (VString c)
         (if default false (params ≫= p_parseToBSON)
          then VObjectId i else VString (toHexString i))
         (lookup_prop "$db" props) = inr x
    /\ instanceof_DBRef x = true
    /\ observe (safeParseAsync_awaited (JamfDBRef_new other def) (VObject cname props)
                  params w) = Ret (Succeeded x)
    /\ (default false (params ≫= p_async) = false ->
        observe (safeParse (JamfDBRef_new other def) (VObject cname props) params w)
        = Ret (Succeeded x)
        /\ calls (snd (safeParse (JamfDBRef_new other def) (VObject cname props) params w))
           = calls w
             ++ [NewObjectId (VString s);
                 NewDBRef (VString c)
                   (if default false (params ≫= p_parseToBSON)
                    then VObjectId i else VString (toHexString i))
                   (lookup_prop "$db" props)]).
Proof.
  intros Href Hc Hid Hs.
  destruct (ObjectId_of_string_hex24 s Hs) as (i & Hi & _).
  destruct (DBRef_new_string c
              (if default false (params ≫= p_parseToBSON)
               then VObjectId i else VString (toHexString i))
              (lookup_prop "$db" props)) as [x Hx].
  exists i, x. split; [exact Hi|]. split; [exact Hx|].
  split; [exact (DBRef_new_instance _ _ _ _ Hx)|].
  assert (Hdel : delegates (VObject cname props) = true).
  { cbn [delegates]. rewrite Href, Hid, (truthy_string c Hc).
    apply truthy_string. intros ->. discriminate Hs. }
  assert (Hsync : forall params',
    default false (params' ≫= p_async) = false ->
    default false (params' ≫= p_parseToBSON) = default false (params ≫= p_parseToBSON) ->
    safeParse (JamfDBRef_new other def) (VObject cname props) params' w
    = (Ret (SafeParseSuccess x),
       logged (NewDBRef (VString c)
                 (if default false (params ≫= p_parseToBSON)
                  then VObjectId i else VString (toHexString i))
                 (lookup_prop "$db" props))
         (logged (NewObjectId (VString s)) (snd (new_array w))))).
  { intros params' Ha Hb.
    rewrite (Reference_safeParse_identifier_valid other def cname props (VString s) i)
      by (assumption || (rewrite Hid; reflexivity) || exact Hi).
    rewrite Href, Hb, Hx. reflexivity. }
  split.
  - rewrite (proj1 (Reference_async_as_sync other def _ params w)).
    rewrite (Hsync (without_async params));
      [reflexivity|apply without_async_async|apply without_async_parseToBSON].
  - intros Ha. rewrite (Hsync params Ha eq_refl). split; [reflexivity|].
    cbn [snd calls logged new_array]. rewrite <- app_assoc. reflexivity.
Qed.

Lemma Reference_success_witness :
  exists i x,
    ObjectId_of_string sample_hex = inr i
    /\ DBRef_new (VString "users") (VString (toHexString i)) VUndefined = inr x
    /\ observe (safeParseAsync_awaited (JamfDBRef_new bson_rejects plain_def)
                  (reference_object (VString "users") (VString sample_hex)) None initial)
       = Ret (Succeeded x)
    /\ observe (safeParse (JamfDBRef_new bson_rejects plain_def)
                  (reference_object (VString "users") (VString sample_hex)) None initial)
       = Ret (Succeeded x).
Proof.
  destruct (Reference_success bson_rejects plain_def "Object"
              [("$ref", VString "users"); ("$id", VString sample_hex)]
              "users" sample_hex None initial)
    as (i & x & H1 & H2 & _ & H3 & H4).
  - reflexivity.
  - discriminate.
  - reflexivity.
  - reflexivity.
  - exists i, x. split; [exact H1|]. split; [exact H2|]. split; [exact H3|].
    apply H4. reflexivity.
Defined.

(** X11.  When [$ref] is truthy and [$id] is a string of 24 hex digits,
    so that the identifier is accepted, but the reference constructor
    raises (it does on a [$ref] that is not a string), the raise is
    caught: [safeParseAsync], and [safeParse] unless the caller set
    [async], fail with one [custom] issue carrying the message of what was
    raised, placed at the validator's own path, not at [$id].  With
    [async] set, [safeParse] raises on meeting the promise. *)
Theorem Reference_construction_failure
    (other : Generator) (def : Def)
    (cname : string) (props : list (string * value)) (s : string) (e : exn)
    (params : option JamfParseParams) (w : world) :
  truthy (lookup_prop "$ref" props) = true ->
  lookup_prop "$id" props = VString s -> is_hex24 s = true ->
  (forall o, DBRef_new (lookup_prop "$ref" props) o (lookup_prop "$db" props) = inl e) ->
  let failure :=
    Ret (Failed
           [ {| issue_code := custom; issue_expected := None; issue_received := None;
                issue_path := default [] (params ≫= p_path);
                issue_message := default "unknown error" (exn_message e) |} ]) in
  observe (safeParseAsync_awaited (JamfDBRef_new other def) (VObject cname props) params w)
  = failure
  /\ (default false (params ≫= p_async) = false ->
      observe (safeParse (JamfDBRef_new other def) (VObject cname props) params w)
      = failure)
  /\ (default false (params ≫= p_async) = true ->
      observe (safeParse (JamfDBRef_new other def) (VObject cname props) params w)
      = Throw (Error "Synchronous parse encountered promise.")).
Proof.
  intros Href Hid Hs Hnew failure.
  destruct (ObjectId_of_string_hex24 s Hs) as (i & Hi & _).
  assert (Hdel : delegates (VObject cname props) = true).
  { cbn [delegates]. rewrite Href, Hid.
    apply truthy_string. intros ->. discriminate Hs. }
  assert (Hsync : forall params',
    default false (params' ≫= p_async) = false ->
    default [] (params' ≫= p_path) = default [] (params ≫= p_path) ->
    observe (safeParse (JamfDBRef_new other def) (VObject cname props) params' w)
    = failure).
  { intros params' Ha Hp.
    rewrite (Reference_safeParse_identifier_valid other def cname props (VString s) i)
      by (assumption || (rewrite Hid; reflexivity) || exact Hi).
    rewrite Hnew. cbn [observe safeParse_ctx common issues]. read_store.
    rewrite app_nil_r. unfold Path in *. rewrite Hp. reflexivity. }
  split; [|split].
  - rewrite (proj1 (Reference_async_as_sync other def _ params w)).
    apply Hsync; [apply without_async_async|apply without_async_path].
  - intros Ha. apply Hsync; [exact Ha|reflexivity].
  - intros Ha.
    destruct (safeParse_deferred_raises other def (VObject cname props) params w)
      as (e' & -> & He').
    { cbn [defers]. rewrite Ha, Hdel. reflexivity. }
    rewrite He'; [reflexivity|].
    intros e''. cbn [nested_id]. rewrite Hid. discriminate.
Qed.

Lemma Reference_construction_failure_witness :
  observe (safeParseAsync_awaited (JamfDBRef_new bson_rejects plain_def)
             (reference_object (VNumber 5) (VString sample_hex)) (only_async true) initial)
  = Ret (Failed
           [ {| issue_code := custom; issue_expected := None; issue_received := None;
                issue_path := [];
                issue_message := "collection.split is not a function" |} ])
  /\ observe (safeParse (JamfDBRef_new bson_rejects plain_def)
                (reference_object (VNumber 5) (VString sample_hex)) None initial)
     = Ret (Failed
              [ {| issue_code := custom; issue_expected := None; issue_received := None;
                   issue_path := [];
                   issue_message := "collection.split is not a function" |} ])
  /\ observe (safeParse (JamfDBRef_new bson_rejects plain_def)
                (reference_object (VNumber 5) (VString sample_hex)) (only_async true)
                initial)
     = Throw (Error "Synchronous parse encountered promise.").
Proof.
  split; [|split].
  - apply (proj1 (Reference_construction_failure bson_rejects plain_def "Object"
                    [("$ref", VNumber 5); ("$id", VString sample_hex)] sample_hex
                    (TypeError "collection.split is not a function") (only_async true)
                    initial eq_refl eq_refl eq_refl (fun _ => eq_refl))).
  - apply (proj1 (proj2 (Reference_construction_failure bson_rejects plain_def "Object"
                    [("$ref", VNumber 5); ("$id", VString sample_hex)] sample_hex
                    (TypeError "collection.split is not a function") None
                    initial eq_refl eq_refl eq_refl (fun _ => eq_refl)))).
    reflexivity.
  - apply (proj2 (proj2 (Reference_construction_failure bson_rejects plain_def "Object"
                    [("$ref", VNumber 5); ("$id", VString sample_hex)] sample_hex
                    (TypeError "collection.split is not a function") (only_async true)
                    initial eq_refl eq_refl eq_refl (fun _ => eq_refl)))).
    reflexivity.
Defined.

Lemma handleResult_world ctx r w : snd (handleResult ctx r w) = w.
Proof.
  unfold handleResult. destruct r; try reflexivity;
    destruct (length (read_issues (issues (common ctx)) w) =? 0)%nat; reflexivity.
Qed.

(** [safeParse] leaves the world its parse step leaves. *)
Lemma safeParse_world schema d params w :
  snd (safeParse schema d params w)
  = snd (_parse schema
           {| data := d; path := default [] (params ≫= p_path);
              parent := safeParse_ctx schema d params (next_array w) |}
           (snd (new_array w))).
Proof.
  rewrite safeParse_run. cbv zeta. unfold _parseSync, bind.
  destruct (_parse schema _ _) as [[[r|q]|e] w']; try reflexivity.
  apply handleResult_world.
Qed.

(** What the caller sees of a run that met no promise ([null] apart): a
    native reference, or one issue; or what [getUnkownType] raised on the
    data, or on the [$id] the identifier validator was turning away. *)
Lemma Reference_safeParse_resolved other def d params w :
  d <> VNull ->
  defers (Reference def) params d = false ->
  (exists e,
     observe (safeParse (JamfDBRef_new other def) d params w) = Throw e
     /\ (getUnkownType d = Throw e \/ getUnkownType (nested_id d) = Throw e))
  \/ (exists r li,
        observe (safeParse (JamfDBRef_new other def) d params w)
        = Ret (match r with VALID v => Succeeded v | _ => Failed li end)
        /\ ((exists v, r = VALID v /\ instanceof_DBRef v = true)
            \/ (exists i, r = INVALID /\ li = [i]))).
Proof.
  intros Hn Hdef.
  destruct (JamfDBRef_parse_grows other def
              {| data := d; path := default [] (params ≫= p_path);
                 parent := safeParse_ctx (JamfDBRef_new other def) d params (next_array w) |}
              (snd (new_array w)) Hn Hdef)
    as [(e & Hp & He)|(r & li & l1 & l2 & w' & Hp & Hg & Hshape & _)].
  - left. exists e. split.
    + rewrite (safeParse_raises (JamfDBRef_new other def) d params w e (snd (new_array w)));
        [reflexivity|exact Hp].
    + cbn [data] in He.
      destruct He as [(_ & _ & He)|(_ & _ & _ & He)]; auto.
  - right. exists r, li.
    assert (Hstep : _parseSync (JamfDBRef_new other def)
                      {| data := d; path := default [] (params ≫= p_path);
                         parent := safeParse_ctx (JamfDBRef_new other def) d params
                                     (next_array w) |} (snd (new_array w)) = (Ret r, w')).
    { rewrite Reference_parseSync. unfold Path in *. rewrite Hp. reflexivity. }
    split.
    + apply (safeParse_resolves _ d params w r w' li (l1 ++ l2) Hstep Hg).
      intros Hv. destruct Hshape as [(v & -> & _)|[(i & _ & -> & _)|(i & _ & -> & _)]];
        discriminate.
    + destruct Hshape as [(v & -> & _ & Hv)|[(i & -> & -> & _)|(i & -> & -> & _)]]; eauto.
Qed.

(** A value the reference validator turns away, and whose type has a
    name. *)
Lemma safeParse_reference_rejected other def d r params w :
  let ctx := safeParse_ctx (JamfDBRef_new other def) d params (next_array w) in
  d <> VNull ->
  instanceof_DBRef d = false ->
  delegates d = false ->
  getUnkownType d = Ret r ->
  safeParse (JamfDBRef_new other def) d params w
  = (Ret (SafeParseError ctx None),
     pushed (next_array w)
       (context_issue (global_errorMap w)
          (snd (_processInputParams def
                  {| data := d; path := default [] (params ≫= p_path); parent := ctx |}))
          (invalid_type_issue "DBRef" r))
       (snd (new_array w))).
Proof.
  intros ctx Hn Hi Hdel Hr.
  rewrite safeParse_run. cbv zeta. rewrite Reference_parseSync. fold ctx.
  rewrite JamfDBRef_parse_reject by assumption.
  cbn [data]. rewrite Hr. cbn [parent safeParse_ctx common issues ctx].
  erewrite handleResult_issues; [reflexivity|reflexivity|read_store; reflexivity].
Qed.

(** X12.  Whatever is neither [null], nor a native reference, nor an
    object with truthy [$ref] and [$id] (a string, a number, [undefined],
    a native identifier, an object lacking a field), and has a type that
    [getUnkownType] names, fails through either entry point with one
    [invalid_type] issue expecting ["DBRef"], naming that type, at the
    caller's path; no constructor is entered. *)
Theorem Reference_rejects_other_shapes
    (other : Generator) (def : Def) (d : value) (r : string)
    (params : option JamfParseParams) (w : world) :
  d <> VNull ->
  instanceof_DBRef d = false ->
  delegates d = false ->
  getUnkownType d = Ret (VString r) ->
  exists i,
    observe (safeParse (JamfDBRef_new other def) d params w) = Ret (Failed [i])
    /\ observe (safeParseAsync_awaited (JamfDBRef_new other def) d params w)
       = Ret (Failed [i])
    /\ issue_code i = invalid_type
    /\ issue_expected i = Some "DBRef"
    /\ issue_received i = Some (VString r)
    /\ issue_path i = default [] (params ≫= p_path)
    /\ calls (snd (safeParse (JamfDBRef_new other def) d params w)) = calls w.
Proof.
  intros Hn Hi Hdel Hr.
  pose proof (safeParse_reference_rejected other def d (VString r) params w Hn Hi Hdel Hr)
    as Hsync.
  cbv zeta in Hsync.
  assert (Hobs : observe (safeParse (JamfDBRef_new other def) d params w)
                 = Ret (Failed
                          [context_issue (global_errorMap w)
                             (snd (_processInputParams def
                                     {| data := d; path := default [] (params ≫= p_path);
                                        parent := safeParse_ctx (JamfDBRef_new other def) d
                                                    params (next_array w) |}))
                             (invalid_type_issue "DBRef" (VString r))])).
  { rewrite Hsync. cbn [observe safeParse_ctx common issues]. read_store. reflexivity. }
  eexists. split; [exact Hobs|]. split.
  - rewrite <- Hobs. symmetry.
    apply (entry_points_agree (JamfDBRef_new other def) d params w).
    intros a w1. apply Reference_steps_agree; try reflexivity.
    rewrite Hdel. apply andb_false_r.
  - rewrite context_issue_code, context_issue_expected, context_issue_received,
      context_issue_path, Hsync. repeat split.
Qed.

Lemma Reference_rejects_other_shapes_witness :
  exists i,
    observe (safeParse (JamfDBRef_new bson_rejects plain_def) (VString sample_hex)
               None initial) = Ret (Failed [i])
    /\ observe (safeParseAsync_awaited (JamfDBRef_new bson_rejects plain_def)
                  (VString sample_hex) None initial) = Ret (Failed [i])
    /\ issue_code i = invalid_type
    /\ issue_expected i = Some "DBRef"
    /\ issue_received i = Some (VString "string")
    /\ issue_path i = []
    /\ calls (snd (safeParse (JamfDBRef_new bson_rejects plain_def) (VString sample_hex)
                     None initial)) = [].
Proof.
  apply (Reference_rejects_other_shapes bson_rejects plain_def (VString sample_hex)
           "string" None initial).
  - discriminate.
  - reflexivity.
  - reflexivity.
  - reflexivity.
Defined.

(** X13.  What the reference validator returns on success is always a
    native reference, and a native reference passes through unchanged under
    any parameters, with no issue and no constructor call: validating the
    data of a success again gives that data. *)
Theorem Reference_idempotent
    (other : Generator) (def : Def) (d v : value)
    (params : option JamfParseParams) (w : world) :
  observe (safeParse (JamfDBRef_new other def) d params w) = Ret (Succeeded v) ->
  instanceof_DBRef v = true
  /\ forall params' w1,
       safeParse (JamfDBRef_new other def) v params' w1
       = (Ret (SafeParseSuccess v), snd (new_array w1)).
Proof.
  intros H.
  assert (Hv : instanceof_DBRef v = true).
  { destruct (defers (Reference def) params d) eqn:Hdef.
    - destruct (safeParse_deferred_raises other def d params w Hdef) as (e & He & _).
      rewrite He in H. discriminate H.
    - destruct d as [| |b|n|s|i|c o db|cn props].
      2: { rewrite safeParse_run in H. discriminate H. }
      all: match type of H with observe (safeParse _ ?d _ _) = _ =>
             destruct (Reference_safeParse_resolved other def d params w)
               as [(e & Ho & _)|(r & li & Ho & [(v' & -> & Hv')|(i' & -> & ->)])];
               [discriminate|exact Hdef|rewrite Ho in H; discriminate H
               |rewrite Ho in H; injection H as <-; exact Hv'
               |rewrite Ho in H; discriminate H] end. }
  split; [exact Hv|]. intros params' w1.
  destruct v as [| |b|n|s|i|c o db|cn props]; try discriminate.
  rewrite safeParse_run. cbv zeta. rewrite Reference_parseSync.
  rewrite (JamfDBRef_parse_instance def _ _ c o db) by reflexivity. reflexivity.
Qed.

Lemma Reference_idempotent_witness :
  instanceof_DBRef (VDBRef "users" (VString sample_hex) VUndefined) = true
  /\ forall params' w1,
       safeParse (JamfDBRef_new bson_rejects plain_def)
         (VDBRef "users" (VString sample_hex) VUndefined) params' w1
       = (Ret (SafeParseSuccess (VDBRef "users" (VString sample_hex) VUndefined)),
          snd (new_array w1)).
Proof.
  apply (Reference_idempotent bson_rejects plain_def
           (reference_object (VString "users") (VString sample_hex))
           (VDBRef "users" (VString sample_hex) VUndefined) None initial).
  reflexivity.
Defined.

(** X14.  A run of [JamfDBRef._parse] that has no promise to make (the
    mode is synchronous or the data is not delegated; [null] apart).
    Either it raises, which it can only do before anything is written, on
    data it is turning away or on a [$id] the identifier validator is
    turning away.  Or it returns: valid, with a native reference, having
    appended no issue; or invalid, having appended exactly one: its own,
    at its own path, or the identifier validator's, at [$id], in which
    case the reference constructor was not entered.  It enters the
    identifier constructor at most once, then the reference constructor at
    most once; every other array, the [ZodError] objects, the allocation
    counter and the global error map are as before. *)
Theorem JamfDBRef_parse_footprint
    (other : Generator) (def : Def) (input : ParseInput) (w : world) :
  data input <> VNull ->
  async (common (parent input)) && delegates (data input) = false ->
  let a := issues (common (parent input)) in
  (exists e,
     JamfDBRef_parse def (objectid other tt) input w = (Throw e, w)
     /\ ((instanceof_DBRef (data input) = false /\ delegates (data input) = false)
         \/ (delegates (data input) = true
             /\ instanceof_ObjectId (nested_id (data input)) = false
             /\ candidate (nested_id (data input)) = None)))
  \/ (exists r li l1 l2 w',
        JamfDBRef_parse def (objectid other tt) input w = (Ret (Sync r), w')
        /\ read_issues a w' = read_issues a w ++ li
        /\ ((exists v, r = VALID v /\ li = [] /\ instanceof_DBRef v = true)
            \/ (exists i, r = INVALID /\ li = [i] /\ issue_path i = path input)
            \/ (exists i, r = INVALID /\ li = [i]
                          /\ issue_path i = path input ++ [Key "$id"] /\ l2 = []))
        /\ (forall b, b <> a -> read_issues b w' = read_issues b w)
        /\ zod_errors w' = zod_errors w
        /\ next_array w' = next_array w
        /\ global_errorMap w' = global_errorMap w
        /\ calls w' = calls w ++ l1 ++ l2
        /\ (l1 = [] \/ exists v, l1 = [NewObjectId v])
        /\ (l2 = [] \/ exists c o db, l2 = [NewDBRef c o db])).
Proof.
  intros Hn Hmode a.
  destruct (JamfDBRef_parse_grows other def input w Hn Hmode)
    as [(e & Hp & He)
       |(r & li & l1 & l2 & w' & Hp & (H1 & H2 & H3 & H4 & H5 & H6) & Hshape & Hl1 & Hl2)].
  - left. exists e. split; [exact Hp|].
    destruct He as [(Hi & Hdel & _)|(Hdel & Hi & Hc & _)]; auto.
  - right. exists r, li, l1, l2, w'. repeat split; assumption.
Qed.

Lemma JamfDBRef_parse_footprint_witness :
  (exists e,
     JamfDBRef_parse plain_def (objectid bson_rejects tt)
       {| data := reference_object (VString "users") (VString "bad"); path := [];
          parent := safeParse_ctx mode_probe VNull None 0 |} initial
     = (Throw e, initial)
     /\ ((instanceof_DBRef (reference_object (VString "users") (VString "bad")) = false
          /\ delegates (reference_object (VString "users") (VString "bad")) = false)
         \/ (delegates (reference_object (VString "users") (VString "bad")) = true
             /\ instanceof_ObjectId
                  (nested_id (reference_object (VString "users") (VString "bad"))) = false
             /\ candidate
                  (nested_id (reference_object (VString "users") (VString "bad"))) = None)))
  \/ (exists r li l1 l2 w',
        JamfDBRef_parse plain_def (objectid bson_rejects tt)
          {| data := reference_object (VString "users") (VString "bad"); path := [];
             parent := safeParse_ctx mode_probe VNull None 0 |} initial
        = (Ret (Sync r), w')
        /\ read_issues 0 w' = read_issues 0 initial ++ li
        /\ ((exists v, r = VALID v /\ li = [] /\ instanceof_DBRef v = true)
            \/ (exists i, r = INVALID /\ li = [i] /\ issue_path i = [])
            \/ (exists i, r = INVALID /\ li = [i]
                          /\ issue_path i = [Key "$id"] /\ l2 = []))
        /\ (forall b, b <> 0 -> read_issues b w' = read_issues b initial)
        /\ zod_errors w' = zod_errors initial
        /\ next_array w' = next_array initial
        /\ global_errorMap w' = global_errorMap initial
        /\ calls w' = calls initial ++ l1 ++ l2
        /\ (l1 = [] \/ exists v, l1 = [NewObjectId v])
        /\ (l2 = [] \/ exists c o db, l2 = [NewDBRef c o db])).
Proof.
  apply (JamfDBRef_parse_footprint bson_rejects plain_def
           {| data := reference_object (VString "users") (VString "bad"); path := [];
              parent := safeParse_ctx mode_probe VNull None 0 |} initial).
  - discriminate.
  - reflexivity.
Defined.

(** X15.  In asynchronous mode, on delegated data, the identifier
    validator runs at once, inside [JamfDBRef._parse].  When it raises
    (on a [$id] it is turning away and whose type [getUnkownType] cannot
    name), [_parse] raises with it and makes no promise.  When the type of
    [$id] has a name, [_parse] returns a promise: the constructor call
    and the issue of the identifier validator, if any, are then in the
    world the call leaves, and only the continuation waits.  That promise
    does not reject, and when the identifier was refused, awaiting it
    gives invalid and changes nothing. *)
Theorem JamfDBRef_parse_async_defers
    (other : Generator) (def : Def) (input : ParseInput)
    (cname : string) (props : list (string * value)) (w : world) :
  data input = VObject cname props ->
  delegates (data input) = true ->
  async (common (parent input)) = true ->
  let id := lookup_prop "$id" props in
  let nested :=
    {| data := id; path := path input ++ [Key "$id"]; parent := parent input |} in
  (forall e,
     instanceof_ObjectId id = false -> candidate id = None ->
     getUnkownType id = Throw e ->
     JamfDBRef_parse def (objectid other tt) input w = (Throw e, w))
  /\ (named id = true ->
      exists r w1 p,
        JamfObjectId_parse other plain_def nested w = (Ret (Sync r), w1)
        /\ JamfDBRef_parse def (objectid other tt) input w = (Ret (Async p), w1)
        /\ (forall w2,
              await p w2
              = (let* y := JamfDBRef_logic input (snd (_processInputParams def input)) r in
                 await (Promise_resolve y)) w2)
        /\ (forall w2, exists r' w3,
              await p w2 = (Ret r', w3)
              /\ (isValid r = false -> r' = INVALID /\ w3 = w2))).
Proof.
  intros Hd Hdel Ha id nested.
  pose proof (JamfDBRef_parse_delegated_async other def input cname props w Hd Hdel Ha)
    as Hq.
  fold id nested in Hq.
  split.
  - intros e Hi Hc He. rewrite Hq.
    unfold nested. rewrite JamfObjectId_parse_reject by assumption.
    cbn [data]. rewrite He. reflexivity.
  - intros Hnamed. apply named_string in Hnamed as [n Hnamed].
    destruct (JamfObjectId_parse_outcome other plain_def nested w)
      as [(r & w1 & Hp)|(e & _ & _ & _ & He)].
    2: { cbn [nested data] in He. rewrite Hnamed in He. discriminate He. }
    rewrite Hp in Hq.
    exists r, w1. eexists. split; [exact Hp|]. split; [exact Hq|].
    split; [reflexivity|]. intros w2.
    cbv [then_ await bind ret Promise_resolve].
    rewrite (JamfDBRef_logic_cases input _ cname props r w2 Hd).
    destruct r as [v|v|].
    + destruct (DBRef_new _ _ _); eexists _, _; (split; [reflexivity|discriminate]).
    + eexists _, _. split; [reflexivity|]. intros _. split; reflexivity.
    + eexists _, _. split; [reflexivity|]. intros _. split; reflexivity.
Qed.

Lemma JamfDBRef_parse_async_defers_witness :
  JamfDBRef_parse plain_def (objectid bson_rejects tt)
    {| data := reference_object (VString "users")
                 (VObject "Object" [("constructor", VNull)]);
       path := []; parent := safeParseAsync_ctx mode_probe VNull None 0 |} initial
  = (Throw (TypeError "Cannot read properties of null (reading 'name')"), initial)
  /\ exists r w1 p,
       JamfObjectId_parse bson_rejects plain_def
         {| data := VString "bad"; path := [] ++ [Key "$id"];
            parent := safeParseAsync_ctx mode_probe VNull None 0 |} initial
       = (Ret (Sync r), w1)
       /\ JamfDBRef_parse plain_def (objectid bson_rejects tt)
            {| data := reference_object (VString "users") (VString "bad"); path := [];
               parent := safeParseAsync_ctx mode_probe VNull None 0 |} initial
          = (Ret (Async p), w1)
       /\ (forall w2,
             await p w2
             = (let* y := JamfDBRef_logic
                            {| data := reference_object (VString "users") (VString "bad");
                               path := [];
                               parent := safeParseAsync_ctx mode_probe VNull None 0 |}
                            (snd (_processInputParams plain_def
                                    {| data := reference_object (VString "users")
                                                 (VString "bad");
                                       path := [];
                                       parent := safeParseAsync_ctx mode_probe VNull None 0 |}))
                            r in
                await (Promise_resolve y)) w2)
       /\ (forall w2, exists r' w3,
             await p w2 = (Ret r', w3)
             /\ (isValid r = false -> r' = INVALID /\ w3 = w2)).
Proof.
  split.
  - apply (proj1 (JamfDBRef_parse_async_defers bson_rejects plain_def
                    {| data := reference_object (VString "users")
                                 (VObject "Object" [("constructor", VNull)]);
                       path := [];
                       parent := safeParseAsync_ctx mode_probe VNull None 0 |}
                    "Object"
                    [("$ref", VString "users");
                     ("$id", VObject "Object" [("constructor", VNull)])] initial
                    eq_refl eq_refl eq_refl)); reflexivity.
  - apply (proj2 (JamfDBRef_parse_async_defers bson_rejects plain_def
                    {| data := reference_object (VString "users") (VString "bad");
                       path := [];
                       parent := safeParseAsync_ctx mode_probe VNull None 0 |}
                    "Object" [("$ref", VString "users"); ("$id", VString "bad")] initial
                    eq_refl eq_refl eq_refl)); reflexivity.
Defined.

(** X16.  When the reference validator raises, on data whose type and
    whose [$id]'s type [getUnkownType] names.  [safeParse] raises in two
    cases and no other: the data is [null], or the caller set [async] and
    the data is an object with truthy [$ref] and [$id].  The awaited
    [safeParseAsync] raises on [null] only. *)
Theorem Reference_raises_iff
    (other : Generator) (def : Def) (d : value)
    (params : option JamfParseParams) (w : world) :
  named d = true ->
  named (nested_id d) = true ->
  ((exists e, observe (safeParse (JamfDBRef_new other def) d params w) = Throw e)
   <-> d = VNull \/ defers (Reference def) params d = true)
  /\ ((exists e, observe (safeParseAsync_awaited (JamfDBRef_new other def) d params w)
                 = Throw e)
      <-> d = VNull).
Proof.
  intros Hd Hid.
  apply named_string in Hd as [n Hd]. apply named_string in Hid as [m Hid].
  assert (Hsync : forall params',
    (exists e, observe (safeParse (JamfDBRef_new other def) d params' w) = Throw e)
    <-> d = VNull \/ defers (Reference def) params' d = true).
  { intros params'. split.
    - intros [e He].
      destruct (defers (Reference def) params' d) eqn:Hdef; [right; reflexivity|left].
      destruct d as [| |b|k|s|i|c o db|cn props]; try reflexivity.
      all: match type of He with observe (safeParse _ ?d _ _) = _ =>
             destruct (Reference_safeParse_resolved other def d params' w)
               as [(e' & _ & [He'|He'])|(r & li & Ho & _)];
               [discriminate|exact Hdef
               |rewrite Hd in He'; discriminate He'
               |rewrite Hid in He'; discriminate He'
               |rewrite Ho in He; discriminate He] end.
    - intros [->|Hdef].
      + eexists. rewrite safeParse_run. reflexivity.
      + destruct (safeParse_deferred_raises other def d params' w Hdef) as (e & He & _).
        eauto. }
  split; [apply Hsync|].
  rewrite (proj1 (Reference_async_as_sync other def d params w)).
  rewrite (Hsync (without_async params)). split.
  - intros [H|H]; [exact H|].
    cbn [defers] in H. rewrite without_async_async in H. discriminate H.
  - auto.
Qed.

Lemma Reference_raises_iff_witness :
  ((exists e, observe (safeParse (JamfDBRef_new bson_rejects plain_def)
                         (reference_object (VString "users") (VString sample_hex))
                         (only_async true) initial) = Throw e)
   <-> reference_object (VString "users") (VString sample_hex) = VNull
       \/ defers (Reference plain_def) (only_async true)
            (reference_object (VString "users") (VString sample_hex)) = true)
  /\ ((exists e, observe (safeParseAsync_awaited (JamfDBRef_new bson_rejects plain_def)
                            (reference_object (VString "users") (VString sample_hex))
                            (only_async true) initial) = Throw e)
      <-> reference_object (VString "users") (VString sample_hex) = VNull).
Proof.
  apply (Reference_raises_iff bson_rejects plain_def
           (reference_object (VString "users") (VString sample_hex))
           (only_async true) initial); reflexivity.
Defined.

(** X17.  [safeParse] of either validator, whatever it returns or
    raises, allocates one issue array and builds no [ZodError] (the error
    of a failure is built when it is first read); it leaves every other
    issue array as it was, so the issues behind earlier results stay, and it
    only adds to the log of constructor calls. *)
Theorem safeParse_frame
    (other : Generator) (v : Validator) (d : value)
    (params : option JamfParseParams) (w : world) :
  let w' := snd (safeParse (schema_of other v) d params w) in
  zod_errors w' = zod_errors w
  /\ next_array w' = S (next_array w)
  /\ (forall b, b <> next_array w -> read_issues b w' = read_issues b w)
  /\ exists lc, calls w' = calls w ++ lc.
Proof.
  intros w'. subst w'. rewrite safeParse_world.
  assert (Hg : exists li lc,
    grows (next_array w) li lc (snd (new_array w))
      (snd (_parse (schema_of other v)
              {| data := d; path := default [] (params ≫= p_path);
                 parent := safeParse_ctx (schema_of other v) d params (next_array w) |}
              (snd (new_array w))))).
  { destruct v as [def|def]; cbn [schema_of].
    - change (_parse (JamfObjectId_new other def)) with (JamfObjectId_parse other def).
      apply (JamfObjectId_parse_world other def
               {| data := d; path := default [] (params ≫= p_path);
                  parent := safeParse_ctx (JamfObjectId_new other def) d params
                              (next_array w) |}).
    - change (_parse (JamfDBRef_new other def))
        with (JamfDBRef_parse def (objectid other tt)).
      apply (JamfDBRef_parse_world other def
               {| data := d; path := default [] (params ≫= p_path);
                  parent := safeParse_ctx (JamfDBRef_new other def) d params
                              (next_array w) |}). }
  destruct Hg as (li & lc & Hg).
  destruct (grows_new_array w _ li lc Hg) as (_ & H2 & H3 & H4 & H5 & _).
  repeat split; eauto.
Qed.

(** X18.  Each validator turns the other's native type away and names
    it: the identifier validator reports a native reference as an
    [invalid_type] issue that received ["DBRef"], the reference validator
    reports a native identifier as one that received ["ObjectId"]; neither
    enters a constructor. *)
Theorem native_types_not_interchangeable
    (other : Generator) (def : Def)
    (params : option JamfParseParams) (w : world) :
  (forall c o db, exists i,
     observe (safeParse (JamfObjectId_new other def) (VDBRef c o db) params w)
     = Ret (Failed [i])
     /\ issue_code i = invalid_type
     /\ issue_expected i = Some "ObjectId | string"
     /\ issue_received i = Some (VString "DBRef")
     /\ calls (snd (safeParse (JamfObjectId_new other def) (VDBRef c o db) params w))
        = calls w)
  /\ (forall id, exists i,
        observe (safeParse (JamfDBRef_new other def) (VObjectId id) params w)
        = Ret (Failed [i])
        /\ issue_code i = invalid_type
        /\ issue_expected i = Some "DBRef"
        /\ issue_received i = Some (VString "ObjectId")
        /\ calls (snd (safeParse (JamfDBRef_new other def) (VObjectId id) params w))
           = calls w).
Proof.
  split.
  - intros c o db.
    rewrite (safeParse_identifier_rejected other def (VDBRef c o db) (VString "DBRef"))
      by reflexivity.
    eexists. cbn [observe snd safeParse_ctx common issues]. read_store.
    split; [reflexivity|].
    rewrite context_issue_code, context_issue_expected, context_issue_received.
    repeat split.
  - intros id.
    rewrite (safeParse_reference_rejected other def (VObjectId id) (VString "ObjectId"))
      by (discriminate || reflexivity).
    eexists. cbn [observe snd safeParse_ctx common issues]. read_store.
    split; [reflexivity|].
    rewrite context_issue_code, context_issue_expected, context_issue_received.
    repeat split.
Qed.

(* ================================================================== *)
(** * The names of the types *)
(* ================================================================== *)

(** X19.  What [getUnkownType] answers.  A primitive is named by
    [typeof], [null] is ["null"], a native identifier ["ObjectId"], a
    native reference ["DBRef"], and any other object by the class it was
    made by, as long as it has no property [constructor] of its own.  An
    object that has one is named by the [name] of that property's value:
    by that string when the value is an object with a [name] of its own
    that is a string; while on a [constructor] that is [null] or
    [undefined] the function raises a [TypeError].  On the values
    considered here (every object has a prototype) it raises in no other
    case. *)
Theorem getUnkownType_names :
  getUnkownType VUndefined = Ret (VString "undefined")
  /\ getUnkownType VNull = Ret (VString "null")
  /\ (forall b, getUnkownType (VBool b) = Ret (VString "boolean"))
  /\ (forall n, getUnkownType (VNumber n) = Ret (VString "number"))
  /\ (forall s, getUnkownType (VString s) = Ret (VString "string"))
  /\ (forall i, getUnkownType (VObjectId i) = Ret (VString "ObjectId"))
  /\ (forall c o db, getUnkownType (VDBRef c o db) = Ret (VString "DBRef"))
  /\ (forall cn props,
        own_prop "constructor" props = None ->
        getUnkownType (VObject cn props) = Ret (VString cn))
  /\ (forall cn props cn' props' s,
        own_prop "constructor" props = Some (VObject cn' props') ->
        own_prop "name" props' = Some (VString s) ->
        getUnkownType (VObject cn props) = Ret (VString s))
  /\ (forall cn props,
        own_prop "constructor" props = Some VNull ->
        getUnkownType (VObject cn props)
        = Throw (TypeError "Cannot read properties of null (reading 'name')"))
  /\ (forall cn props,
        own_prop "constructor" props = Some VUndefined ->
        getUnkownType (VObject cn props)
        = Throw (TypeError "Cannot read properties of undefined (reading 'name')"))
  /\ (forall d e,
        getUnkownType d = Throw e ->
        exists cn props v,
          d = VObject cn props /\ own_prop "constructor" props = Some v
          /\ (v = VNull \/ v = VUndefined)).
Proof.
  repeat split; try reflexivity.
  - intros cn props H. apply getUnkownType_class, H.
  - intros cn props cn' props' s H Hn.
    unfold getUnkownType, constructor_name. cbn. rewrite H. cbn.
    rewrite lookup_own_prop, Hn. reflexivity.
  - intros cn props H. unfold getUnkownType, constructor_name. cbn. rewrite H. reflexivity.
  - intros cn props H. unfold getUnkownType, constructor_name. cbn. rewrite H. reflexivity.
  - intros d e. apply getUnkownType_raises.
Qed.

Lemma getUnkownType_names_witness :
  getUnkownType (VObject "Point" [("x", VNumber 1)]) = Ret (VString "Point")
  /\ getUnkownType (VObject "Object" [("constructor", VObject "Object" [("name", VString "Tag")])])
     = Ret (VString "Tag")
  /\ getUnkownType (VObject "Object" [("constructor", VNull)])
     = Throw (TypeError "Cannot read properties of null (reading 'name')")
  /\ getUnkownType (VObject "Object" [("constructor", VUndefined)])
     = Throw (TypeError "Cannot read properties of undefined (reading 'name')").
Proof.
  destruct getUnkownType_names as (_ & _ & _ & _ & _ & _ & _ & H1 & H2 & H3 & H4 & _).
  split; [|split; [|split]].
  - apply H1. reflexivity.
  - apply (H2 "Object" _ "Object" [("name", VString "Tag")] "Tag"); reflexivity.
  - apply H3. reflexivity.
  - apply H4. reflexivity.
Defined.

(* ================================================================== *)
(** * The message of an issue *)
(* ================================================================== *)

(** X20.  Who words an [invalid_type] issue.  The validators give it no
    message, so the error maps make one: Zod's global map first, then the
    map of the schema's definition record, then the map the caller passed
    in the parameters, each seeing the issue, its path, the data and the
    message of the map before it.  The caller's map has the last word; a
    map that is absent changes nothing. *)
Theorem invalid_type_message_precedence
    (other : Generator) (def : Def) (d : value) (r : string)
    (params : option JamfParseParams) (w : world) :
  instanceof_ObjectId d = false ->
  candidate d = None ->
  getUnkownType d = Ret (VString r) ->
  let p := default [] (params ≫= p_path) in
  let issueData := invalid_type_issue "ObjectId | string" (VString r) in
  let by_global := global_errorMap w issueData p d "" in
  let by_schema :=
    match def_errorMap def with
    | Some map => map issueData p d by_global
    | None => by_global
    end in
  let by_caller :=
    match params ≫= p_errorMap with
    | Some map => map issueData p d by_schema
    | None => by_schema
    end in
  exists i,
    observe (safeParse (JamfObjectId_new other def) d params w) = Ret (Failed [i])
    /\ issue_message i = by_caller.
Proof.
  intros Hi Hc Hr p issueData by_global by_schema by_caller.
  rewrite (safeParse_identifier_rejected other def d (VString r)) by assumption.
  eexists. cbn [observe safeParse_ctx common issues]. read_store.
  split; [reflexivity|].
  subst by_caller by_schema by_global issueData p.
  unfold context_issue, makeIssue, invalid_type_issue.
  cbn [message _processInputParams snd ctx_data ctx_path schemaErrorMap common parent
       safeParse_ctx contextualErrorMap data path issue_message JamfObjectId_new _def].
  rewrite app_nil_r.
  destruct (params ≫= p_errorMap) as [cm|]; destruct (def_errorMap def) as [sm|];
    reflexivity.
Qed.

Lemma invalid_type_message_precedence_witness :
  exists i,
    observe (safeParse
               (JamfObjectId_new bson_rejects
                  {| typeName := ObjectID;
                     def_errorMap := Some (fun _ _ _ m => "schema: " +:+ m) |})
               (VNumber 42)
               (Some {| p_path := None;
                        p_errorMap := Some (fun _ _ _ m => "caller: " +:+ m);
                        p_async := None; p_parseToBSON := None |})
               initial) = Ret (Failed [i])
    /\ issue_message i = "caller: schema: Expected ObjectId | string, received number".
Proof.
  apply (invalid_type_message_precedence bson_rejects
           {| typeName := ObjectID;
              def_errorMap := Some (fun _ _ _ m => "schema: " +:+ m) |}
           (VNumber 42) "number"
           (Some {| p_path := None;
                    p_errorMap := Some (fun _ _ _ m => "caller: " +:+ m);
                    p_async := None; p_parseToBSON := None |})
           initial); reflexivity.
Defined.
